(** * OPML to CSV converter: extraction pipeline of [opml_to_csv.py]

    A shallow embedding of [fix_xml_encoding], [parse_opml_file] and
    [parse_opml_file_fallback], together with models of the Python
    library functions they call ([str.replace], the [re] module on the
    patterns used, [ElementTree], [html.unescape], [pathlib]'s [stem]). *)

From Stdlib Require Import String Ascii DecimalString.
From Stdlib Require Import List NArith Bool Arith Lia Sorted.
Import ListNotations.
Open Scope N_scope.

Set Implicit Arguments.

(** ** Python [str]: a sequence of Unicode code points *)

Abbreviation char := N.
Abbreviation str := (list N).

(** ASCII literal to [str]. *)
Definition py (x : String.string) : str :=
  map N_of_ascii (list_ascii_of_string x).

Definition dquote : char := 34.   (* the double quote character *)
Definition amp : char := 38.      (* & *)
Definition gt_sign : char := 62.  (* > *)
Definition lt_sign : char := 60.  (* < *)

(** [dq v] is [v] written between double quotes. *)
Definition dq (v : str) : str := dquote :: v ++ [dquote].

Fixpoint str_eqb (a b : str) : bool :=
  match a, b with
  | [], [] => true
  | x :: a', y :: b' => (x =? y) && str_eqb a' b'
  | _, _ => false
  end.

(** [s.startswith(p)] *)
Fixpoint startswith (p s : str) : bool :=
  match p, s with
  | [], _ => true
  | x :: p', y :: s' => (y =? x) && startswith p' s'
  | _ :: _, [] => false
  end.

(** [c in s] for a one-character [c]. *)
Definition contains_char (c : char) (s : str) : bool :=
  existsb (N.eqb c) s.

(** *** [str.replace(old, new)]

    Non-overlapping occurrences of [old], leftmost first.  [skip] counts
    the characters of an occurrence still to be passed over. *)
Fixpoint replace_go (old new : str) (skip : nat) (s : str) : str :=
  match s with
  | [] => []
  | c :: s' =>
      match skip with
      | S k => replace_go old new k s'
      | O => if startswith old s
             then new ++ replace_go old new (length old - 1) s'
             else c :: replace_go old new 0 s'
      end
  end.

Definition replace (old new s : str) : str :=
  match old with
  | [] => new ++ flat_map (fun c => c :: new) s
  | _ :: _ => replace_go old new 0 s
  end.

(** ** The [re] module, on the operators the patterns use

    A backtracking matcher in continuation-passing style: the
    alternatives are tried in the priority order of Python's engine and
    the first complete match wins. *)

Inductive regex : Type :=
| Emp                                (* empty pattern *)
| Chr (c : char)                     (* a literal character *)
| ChrI (c : char)                    (* a literal under re.IGNORECASE *)
| Cls (p : char -> bool)             (* a character class *)
| Cat (r1 r2 : regex)
| Alt (r1 r2 : regex)                (* r1|r2 *)
| Star (p : char -> bool)            (* [..]*  greedy *)
| StarLazy (p : char -> bool)        (* [..]*? *)
| Plus (p : char -> bool)            (* [..]+  greedy *)
| Grp (r : regex)                    (* capturing group 1 *)
| NegAhead (r : regex).              (* (?!r) *)

(** Characters that a cased ASCII letter of a pattern matches under
    re.IGNORECASE on str patterns: both cases, and the non-ASCII letters
    whose lower case is that letter or that the engine treats as
    equivalent (U+0130, U+0131 for i; U+017F for s; U+212A for k). *)
Definition case_variants (c : char) : list char :=
  let lo := if (65 <=? c) && (c <=? 90) then c + 32 else c in
  if (97 <=? lo) && (lo <=? 122) then
    [lo; lo - 32] ++
    (if lo =? 105 then [0x130; 0x131]
     else if lo =? 115 then [0x17F]
     else if lo =? 107 then [0x212A]
     else [])
  else [c].

Definition ci_eq (pc c : char) : bool := existsb (N.eqb c) (case_variants pc).

(** [\d] on str patterns: Unicode category Nd.  Every block of decimal
    digits is ten consecutive code points starting at one of
    [digit_zeros]; the mathematical digits fill U+1D7CE..U+1D7FF. *)
Definition digit_zeros : list N :=
  [0x30; 0x660; 0x6F0; 0x7C0; 0x966; 0x9E6; 0xA66; 0xAE6; 0xB66; 0xBE6;
   0xC66; 0xCE6; 0xD66; 0xDE6; 0xE50; 0xED0; 0xF20; 0x1040; 0x1090;
   0x17E0; 0x1810; 0x1946; 0x19D0; 0x1A80; 0x1A90; 0x1B50; 0x1BB0;
   0x1C40; 0x1C50; 0xA620; 0xA8D0; 0xA900; 0xA9D0; 0xA9F0; 0xAA50;
   0xABF0; 0xFF10; 0x104A0; 0x10D30; 0x11066; 0x110F0; 0x11136;
   0x111D0; 0x112F0; 0x11450; 0x114D0; 0x11650; 0x116C0; 0x11730;
   0x118E0; 0x11950; 0x11C50; 0x11D50; 0x11DA0; 0x11F50; 0x16A60;
   0x16AC0; 0x16B50; 0x1E140; 0x1E2F0; 0x1E4F0; 0x1E950; 0x1FBF0].

Definition is_decimal (c : char) : bool :=
  existsb (fun z => (z <=? c) && (c <? z + 10)) digit_zeros
  || ((0x1D7CE <=? c) && (c <=? 0x1D7FF)).

(** [[0-9a-fA-F]] *)
Definition is_hex (c : char) : bool :=
  ((48 <=? c) && (c <=? 57)) || ((97 <=? c) && (c <=? 102))
  || ((65 <=? c) && (c <=? 70)).

(** [\s] on str patterns: [str.isspace]. *)
Definition is_space (c : char) : bool :=
  ((9 <=? c) && (c <=? 13)) || ((0x1C <=? c) && (c <=? 0x20))
  || (c =? 0x85) || (c =? 0xA0) || (c =? 0x1680)
  || ((0x2000 <=? c) && (c <=? 0x200A))
  || (c =? 0x2028) || (c =? 0x2029) || (c =? 0x202F) || (c =? 0x205F)
  || (c =? 0x3000).

Definition not_char (x : char) (c : char) : bool := negb (c =? x).

Definition groups := option str.
Definition cont (R : Type) := str -> groups -> option R.

Fixpoint rep_greedy {R} (p : char -> bool) (k : cont R) (s : str) (g : groups)
  : option R :=
  match s with
  | c :: s' =>
      if p c then
        match rep_greedy p k s' g with
        | Some r => Some r
        | None => k s g
        end
      else k s g
  | [] => k s g
  end.

Fixpoint rep_lazy {R} (p : char -> bool) (k : cont R) (s : str) (g : groups)
  : option R :=
  match k s g with
  | Some r => Some r
  | None =>
      match s with
      | c :: s' => if p c then rep_lazy p k s' g else None
      | [] => None
      end
  end.

Definition one {R} (p : char -> bool) (k : cont R) (s : str) (g : groups)
  : option R :=
  match s with
  | c :: s' => if p c then k s' g else None
  | [] => None
  end.

Fixpoint run {R} (r : regex) (k : cont R) (s : str) (g : groups) : option R :=
  match r with
  | Emp => k s g
  | Chr c => one (fun x => x =? c) k s g
  | ChrI c => one (ci_eq c) k s g
  | Cls p => one p k s g
  | Cat r1 r2 => run r1 (run r2 k) s g
  | Alt r1 r2 =>
      match run r1 k s g with
      | Some x => Some x
      | None => run r2 k s g
      end
  | Star p => rep_greedy p k s g
  | StarLazy p => rep_lazy p k s g
  | Plus p => one p (rep_greedy p k) s g
  | Grp r1 =>
      run r1 (fun s' _ => k s' (Some (firstn (length s - length s') s))) s g
  | NegAhead r1 =>
      match run r1 (fun _ _ => Some tt) s g with
      | Some _ => None
      | None => k s g
      end
  end.

(** A match anchored at the start of [s]: its length and group 1. *)
Definition match_at (r : regex) (s : str) : option (nat * groups) :=
  run r (fun s' g => Some ((length s - length s')%nat, g)) s None.

(** A match object: [start()], [end()], [group(0)], [group(1)]. *)
Record Match : Type := mkMatch {
  m_start : nat;
  m_end : nat;
  group0 : str;
  group1 : groups
}.

(** [re.finditer]: leftmost matches, each search resuming where the
    previous match ended.  The patterns of this program never match the
    empty string, so the rules for empty matches are not modelled. *)
Fixpoint finditer_go (r : regex) (pos skip : nat) (s : str) : list Match :=
  match s with
  | [] => []
  | _ :: s' =>
      match skip with
      | S k => finditer_go r (S pos) k s'
      | O =>
          match match_at r s with
          | Some (n, g) =>
              mkMatch pos (pos + n)%nat (firstn n s) g
              :: finditer_go r (S pos) (n - 1) s'
          | None => finditer_go r (S pos) 0 s'
          end
      end
  end.

Definition re_finditer (r : regex) (s : str) : list Match :=
  finditer_go r 0 0 s.

(** [re.search]: the leftmost match, or [None]. *)
Fixpoint re_search (r : regex) (s : str) : option (nat * groups) :=
  match match_at r s with
  | Some x => Some x
  | None =>
      match s with
      | [] => None
      | _ :: s' => re_search r s'
      end
  end.

(** [re.sub(r, repl, s)] for a replacement template without group
    references. *)
Fixpoint sub_go (r : regex) (repl : str) (skip : nat) (s : str) : str :=
  match s with
  | [] => []
  | c :: s' =>
      match skip with
      | S k => sub_go r repl k s'
      | O =>
          match match_at r s with
          | Some (n, _) => repl ++ sub_go r repl (n - 1) s'
          | None => c :: sub_go r repl 0 s'
          end
      end
  end.

Definition re_sub (r : regex) (repl s : str) : str := sub_go r repl 0 s.

(** A literal string as a pattern, case-sensitive or under IGNORECASE. *)
Fixpoint lit (l : str) : regex :=
  match l with
  | [] => Emp
  | c :: l' => Cat (Chr c) (lit l')
  end.

Fixpoint litI (l : str) : regex :=
  match l with
  | [] => Emp
  | c :: l' => Cat (ChrI c) (litI l')
  end.

(** ** [fix_xml_encoding] *)

(** [(?!amp;|lt;|gt;|quot;|apos;|#\d+;|#x[0-9a-fA-F]+;)] without the
    negation: the alternatives of the lookahead. *)
Definition entity_tail : regex :=
  Alt (lit (py "amp;"))
 (Alt (lit (py "lt;"))
 (Alt (lit (py "gt;"))
 (Alt (lit (py "quot;"))
 (Alt (lit (py "apos;"))
 (Alt (Cat (Chr 35) (Cat (Plus is_decimal) (Chr 59)))
      (Cat (lit (py "#x")) (Cat (Plus is_hex) (Chr 59)))))))).

(** [r'&(?!amp;|lt;|gt;|quot;|apos;|#\d+;|#x[0-9a-fA-F]+;)'] *)
Definition bare_amp_pattern : regex :=
  Cat (Chr amp) (NegAhead entity_tail).

Definition fix_xml_encoding (xml_content : str) : str :=
  let xml_content := re_sub bare_amp_pattern (py "&amp;") xml_content in
  let xml_content := replace (py "&nbsp;") (py " ") xml_content in
  let xml_content := replace [0x2019] (py "'") xml_content in
  let xml_content := replace [0x201C] [dquote] xml_content in
  let xml_content := replace [0x201D] [dquote] xml_content in
  let xml_content := replace [0x2013] (py "-") xml_content in
  let xml_content := replace [0x2014] (py "-") xml_content in
  let xml_content := replace [0xA0] (py " ") xml_content in
  let xml_content := replace [0x2026] (py "...") xml_content in
  let xml_content := replace [0x2018] (py "'") xml_content in
  let xml_content := replace [0x2019] (py "'") xml_content in
  let xml_content := replace [0x201C] [dquote] xml_content in
  let xml_content := replace [0x201D] [dquote] xml_content in
  xml_content.

(** ** [xml.etree.ElementTree] *)

(** An [Element]: its [tag], its [attrib] dictionary in document order
    (the parser refuses duplicate names) and its children.  Text and
    tail are not read by the converter and are left out. *)
#[warnings="-register-all"]
Inductive Element : Type :=
| Elem (tag : str) (attrib : list (str * str)) (children : list Element).

Definition tag_of (e : Element) : str := let 'Elem t _ _ := e in t.
Definition attrib_of (e : Element) : list (str * str) :=
  let 'Elem _ a _ := e in a.
Definition children_of (e : Element) : list Element :=
  let 'Elem _ _ c := e in c.

Fixpoint lookup (key : str) (d : list (str * str)) : option str :=
  match d with
  | [] => None
  | (k, v) :: d' => if str_eqb k key then Some v else lookup key d'
  end.

(** [elem.get(key)]: [None] when the attribute is absent. *)
Definition get (e : Element) (key : str) : option str :=
  lookup key (attrib_of e).

(** [elem.get(key, default)] *)
Definition get_default (e : Element) (key default : str) : str :=
  match get e key with
  | Some v => v
  | None => default
  end.

(** [elem.iter()]: the element and its descendants in document order. *)
Fixpoint iter (e : Element) : list Element :=
  match e with
  | Elem _ _ cs => e :: flat_map iter cs
  end.

(** [root.findall('.//' + tag)]: the descendants of [root] (not [root]
    itself) with that tag, in document order. *)
Definition findall_descendants (tag : str) (root : Element) : list Element :=
  filter (fun e => str_eqb (tag_of e) tag) (flat_map iter (children_of root)).



(** ** Exceptions and effects *)

Inductive exn : Type :=
| ParseError (msg : str)    (* xml.etree.ElementTree.ParseError *)
| OtherError (msg : str).   (* any other Exception: OSError, UnicodeDecodeError, ... *)

Definition exn_str (e : exn) : str :=
  match e with
  | ParseError m => m
  | OtherError m => m
  end.

Inductive result (A : Type) : Type :=
| Ok (a : A)
| Raise (e : exn).
Arguments Ok {A} a.
Arguments Raise {A} e.

(** One emitted record: the dictionary with keys title, description,
    url, type, category. *)
Record Feed : Type := mkFeed {
  title : str;
  description : str;
  url : str;
  type : str;
  category : str
}.

(** What a call does to the outside: files opened, lines printed. *)
Inductive event : Type :=
| Opened (path : str)
| Printed (line : str).

(** The state a function body runs in: its local list [feeds] and the
    events so far. *)
Record state : Type := mkState {
  feeds : list Feed;
  log : list event
}.

Definition M (A : Type) : Type := state -> result A * state.

Definition ret {A} (a : A) : M A := fun st => (Ok a, st).

Definition bind {A B} (m : M A) (f : A -> M B) : M B :=
  fun st =>
    match m st with
    | (Ok a, st') => f a st'
    | (Raise e, st') => (Raise e, st')
    end.

Notation "x <- m ;; f" := (bind m (fun x => f))
  (at level 61, m at next level, right associativity).
Notation "m ;;; f" := (bind m (fun _ => f))
  (at level 61, right associativity).

Definition lift {A} (r : result A) : M A := fun st => (r, st).

Definition emit (e : event) : M unit :=
  fun st => (Ok tt, mkState (feeds st) (log st ++ [e])).

(** [print(line)]: writing to the standard output is taken not to
    fail. *)
Definition print (line : str) : M unit := emit (Printed line).

(** [feeds.append(f)] and [feeds.extend(l)] *)
Definition append (f : Feed) : M unit :=
  fun st => (Ok tt, mkState (feeds st ++ [f]) (log st)).

Definition extend (l : list Feed) : M unit :=
  fun st => (Ok tt, mkState (feeds st ++ l) (log st)).

(** Reading the local [feeds], as in [return feeds]. *)
Definition return_feeds : M (list Feed) := fun st => (Ok (feeds st), st).

(** [try: body  except ...: handler e].  Every exception of the model is
    an [Exception], so the handlers together receive all of them. *)
Definition try_except (body : M unit) (handler : exn -> M unit) : M unit :=
  fun st =>
    match body st with
    | (Ok a, st') => (Ok a, st')
    | (Raise e, st') => handler e st'
    end.

(** [for x in xs: body x] *)
Fixpoint for_each {X} (xs : list X) (body : X -> M unit) : M unit :=
  match xs with
  | [] => ret tt
  | x :: xs' => body x ;;; for_each xs' body
  end.

(** A call: the callee starts with [feeds = []] of its own; the caller
    finds its own [feeds] unchanged afterwards. *)
Definition call {A} (f : M A) : M A :=
  fun st =>
    let '(r, st') := f (mkState [] (log st)) in
    (r, mkState (feeds st) (log st')).

(** The surroundings of the converter: the file system and the library
    functions whose details the converter does not depend on. *)
Record Env : Type := mkEnv {
  (* open(path, 'r', encoding='utf-8') followed by read() *)
  read_text : str -> result str;
  (* ET.fromstring *)
  fromstring : str -> result Element;
  (* _charref.sub(_replace_charref, s), the second line of html.unescape *)
  replace_charrefs : str -> str;
  (* Path(path).stem *)
  stem : str -> str
}.

(** ** The converter *)

(** [html.unescape(s)]: [if '&' not in s: return s], else the
    character-reference substitution. *)
Definition html_unescape (env : Env) (s : str) : str :=
  if contains_char amp s then replace_charrefs env s else s.

(** [html.unescape(x) if x else ''] *)
Definition clean (env : Env) (x : str) : str :=
  match x with
  | [] => []
  | _ :: _ => html_unescape env x
  end.

(** [a or b] with [a] a string or [None]. *)
Definition py_or (a : option str) (b : str) : str :=
  match a with
  | Some ((_ :: _) as v) => v
  | _ => b
  end.

(** [with open(file_path, 'r', encoding='utf-8') as file: file.read()] *)
Definition read_file (env : Env) (file_path : str) : M str :=
  emit (Opened file_path) ;;; lift (read_text env file_path).

(** The pattern of [parse_opml_file_fallback], compiled with
    re.IGNORECASE | re.DOTALL.  In order: [<outline]; [\s+]; a lazy run of
    characters other than [>]; [xmlUrl=] and a double quote; group 1, a
    greedy run of characters other than the double quote; a double quote;
    a lazy run of characters other than [>]; and [>]. *)
Definition outline_pattern : regex :=
  Cat (litI (py "<outline"))
 (Cat (Plus is_space)
 (Cat (StarLazy (not_char gt_sign))
 (Cat (litI (py "xmlUrl=" ++ [dquote]))
 (Cat (Grp (Star (not_char dquote)))
 (Cat (Chr dquote)
 (Cat (StarLazy (not_char gt_sign))
      (Chr gt_sign))))))).

(** The attribute patterns, [name] one of text, title, description,
    type: [name=] and a double quote; group 1, a greedy run of characters
    other than the double quote; a double quote. *)
Definition attr_pattern (name : str) : regex :=
  Cat (lit (name ++ py "=" ++ [dquote]))
 (Cat (Grp (Star (not_char dquote)))
      (Chr dquote)).

(** [m = re.search(attr_pattern, outline_text)] and then [m.group(1)]. *)
Definition search_attr (name : str) (outline_text : str) : option str :=
  match re_search (attr_pattern name) outline_text with
  | Some (_, Some v) => Some v
  | Some (_, None) => Some []
  | None => None
  end.

(** The body of the loop of [parse_opml_file_fallback] up to the test on
    the URL: the title, description and type found in one match. *)
Definition fallback_title (outline_text : str) : str :=
  let title := [] in
  let title :=
    match search_attr (py "text") outline_text with
    | Some v => v
    | None => title
    end in
  match title with
  | [] =>
      match search_attr (py "title") outline_text with
      | Some v => v
      | None => title
      end
  | _ :: _ => title
  end.

Definition fallback_description (outline_text : str) : str :=
  match search_attr (py "description") outline_text with
  | Some v => v
  | None => []
  end.

Definition fallback_type (outline_text : str) : str :=
  match search_attr (py "type") outline_text with
  | Some v => v
  | None => py "rss"
  end.

Definition fallback_step (env : Env) (category : str) (m : Match) : M unit :=
  let outline_text := group0 m in
  let title := fallback_title outline_text in
  let description := fallback_description outline_text in
  let feed_type := fallback_type outline_text in
  match group1 m with
  | Some ((_ :: _) as xml_url) =>
      append (mkFeed (clean env title) (clean env description)
                     xml_url feed_type category)
  | _ => ret tt
  end.

Definition parse_opml_file_fallback (env : Env) (file_path : str)
  : M (list Feed) :=
  let category := stem env file_path in
  try_except
    (content <- read_file env file_path ;;
     for_each (re_finditer outline_pattern content)
              (fallback_step env category))
    (fun e =>
       print (py "Fallback parsing failed for " ++ file_path ++ py ": "
              ++ exn_str e)) ;;;
  return_feeds.

(** The body of the loop of [parse_opml_file]. *)
Definition primary_step (env : Env) (category : str) (outline : Element)
  : M unit :=
  match get outline (py "xmlUrl") with
  | Some ((_ :: _) as xml_url) =>
      let title :=
        py_or (get outline (py "text")) (get_default outline (py "title") [])
      in
      let description := get_default outline (py "description") [] in
      let feed_type := get_default outline (py "type") (py "rss") in
      let title := clean env title in
      let description := clean env description in
      append (mkFeed title description xml_url feed_type category)
  | _ => ret tt
  end.

Definition parse_opml_file (env : Env) (file_path : str) : M (list Feed) :=
  try_except
    (xml_content <- read_file env file_path ;;
     let xml_content := fix_xml_encoding xml_content in
     root <- lift (fromstring env xml_content) ;;
     let category := stem env file_path in
     for_each (findall_descendants (py "outline") root)
              (primary_step env category))
    (fun e =>
       match e with
       | ParseError _ =>
           print (py "Error parsing " ++ file_path ++ py ": " ++ exn_str e) ;;;
           try_except
             (l <- call (parse_opml_file_fallback env file_path) ;;
              extend l)
             (fun fallback_e =>
                print (py "Fallback parsing also failed for " ++ file_path
                       ++ py ": " ++ exn_str fallback_e))
       | OtherError _ =>
           print (py "Error processing " ++ file_path ++ py ": " ++ exn_str e)
       end) ;;;
  return_feeds.

(** A call of [parse_opml_file] from outside, as [convert_opml_to_csv]
    makes it: what it returns or raises, and the events it caused. *)
Definition run_parse (env : Env) (file_path : str)
  : result (list Feed) * list event :=
  let '(r, st) := call (parse_opml_file env file_path) (mkState [] []) in
  (r, log st).

Definition run_fallback (env : Env) (file_path : str)
  : result (list Feed) * list event :=
  let '(r, st) := call (parse_opml_file_fallback env file_path) (mkState [] [])
  in (r, log st).

(** ** A concrete environment, for running the converter on examples *)

(** *** A model of [ET.fromstring] on a fragment of XML

    Elements with ASCII names and without namespaces, attributes in
    single or double quotes, the five predefined entities and numeric
    character references, character data, comments, CDATA sections and
    processing instructions.  A document outside this fragment (a
    DOCTYPE, a namespace declaration, a non-ASCII name) is reported as
    not well-formed: the model is only used on documents inside it. *)

Definition is_xml_space (c : char) : bool :=
  (c =? 32) || (c =? 9) || (c =? 10) || (c =? 13).

Definition is_ascii_letter (c : char) : bool :=
  ((65 <=? c) && (c <=? 90)) || ((97 <=? c) && (c <=? 122)).

Definition is_ascii_digit (c : char) : bool := (48 <=? c) && (c <=? 57).

Definition is_name_start (c : char) : bool :=
  is_ascii_letter c || (c =? 95).

Definition is_name_char (c : char) : bool :=
  is_name_start c || is_ascii_digit c || (c =? 45) || (c =? 46).

(** The production Char of XML 1.0. *)
Definition is_xml_char (c : char) : bool :=
  (c =? 9) || (c =? 10) || (c =? 13)
  || ((0x20 <=? c) && (c <=? 0xD7FF))
  || ((0xE000 <=? c) && (c <=? 0xFFFD))
  || ((0x10000 <=? c) && (c <=? 0x10FFFF)).

(** The longest prefix of [s] in the class [p], and what follows it. *)
Fixpoint span (p : char -> bool) (s : str) : str * str :=
  match s with
  | c :: s' =>
      if p c then let '(a, b) := span p s' in (c :: a, b) else ([], s)
  | [] => ([], [])
  end.

Definition skip_space (s : str) : str := snd (span is_xml_space s).

(** What follows the first occurrence of [stop] in [s]. *)
Fixpoint after (stop : str) (s : str) : option str :=
  if startswith stop s then Some (skipn (length stop) s)
  else match s with
       | [] => None
       | _ :: s' => after stop s'
       end.

Definition hex_value (c : char) : N :=
  if is_ascii_digit c then c - 48
  else if (97 <=? c) then c - 87 else c - 55.

Definition number (base : N) (ds : str) : N :=
  fold_left (fun acc d => acc * base + hex_value d) ds 0.

(** A reference, given what follows its [&]: the character it denotes
    and what follows its [;]. *)
Definition parse_reference (s : str) : option (char * str) :=
  if startswith (py "amp;") s then Some (38, skipn 4 s)
  else if startswith (py "lt;") s then Some (60, skipn 3 s)
  else if startswith (py "gt;") s then Some (62, skipn 3 s)
  else if startswith (py "quot;") s then Some (34, skipn 5 s)
  else if startswith (py "apos;") s then Some (39, skipn 5 s)
  else
    match s with
    | 35 :: 120 :: s' =>
        match span is_hex s' with
        | ((_ :: _) as ds, 59 :: rest) =>
            let c := number 16 ds in
            if is_xml_char c then Some (c, rest) else None
        | _ => None
        end
    | 35 :: s' =>
        match span is_ascii_digit s' with
        | ((_ :: _) as ds, 59 :: rest) =>
            let c := number 10 ds in
            if is_xml_char c then Some (c, rest) else None
        | _ => None
        end
    | _ => None
    end.

(** An attribute value after its opening quote [q]: the normalized value
    and what follows the closing quote.  [skip] counts the characters of
    a reference still to be passed over. *)
Fixpoint attr_value (q : char) (skip : nat) (s : str) : option (str * str) :=
  match s with
  | [] => None
  | c :: s' =>
      match skip with
      | S k => attr_value q k s'
      | O =>
          if c =? q then Some ([], s')
          else if c =? lt_sign then None
          else if c =? amp then
            match parse_reference s' with
            | Some (x, rest) =>
                match attr_value q (length s' - length rest) s' with
                | Some (v, r) => Some (x :: v, r)
                | None => None
                end
            | None => None
            end
          else if negb (is_xml_char c) then None
          else
            match attr_value q 0 s' with
            | Some (v, r) => Some ((if is_xml_space c then 32 else c) :: v, r)
            | None => None
            end
      end
  end.

(** A Name and what follows it. *)
Definition parse_name (s : str) : option (str * str) :=
  match s with
  | c :: s' =>
      if is_name_start c
      then let '(a, b) := span is_name_char s' in Some (c :: a, b)
      else None
  | [] => None
  end.

(** The attributes of a start tag, after its name: the dictionary and
    what follows, which begins with [>] or [/>]. *)
Fixpoint attributes (fuel : nat) (acc : list (str * str)) (s : str)
  : option (list (str * str) * str) :=
  match fuel with
  | O => None
  | S fuel' =>
      let s1 := skip_space s in
      match s1 with
      | 62 :: _ => Some (acc, s1)
      | 47 :: 62 :: _ => Some (acc, s1)
      | _ =>
          if (length s1 =? length s)%nat then None   (* no white space before it *)
          else
            match parse_name s1 with
            | Some (name, s2) =>
                match skip_space s2 with
                | 61 :: s3 =>
                    match skip_space s3 with
                    | q :: s4 =>
                        if (q =? 34) || (q =? 39) then
                          match attr_value q 0 s4 with
                          | Some (v, s5) =>
                              match lookup name acc with
                              | Some _ => None      (* duplicate attribute *)
                              | None =>
                                  if str_eqb name (py "xmlns") then None
                                  else attributes fuel' (acc ++ [(name, v)]) s5
                              end
                          | None => None
                          end
                        else None
                    | [] => None
                    end
                | _ => None
                end
            | None => None
            end
      end
  end.

(** An element being read: its tag, its attributes and the children
    read so far, last first. *)
Record open_element : Type := mkOpen {
  o_tag : str;
  o_attrib : list (str * str);
  o_children : list Element
}.

Definition add_child (e : Element) (o : open_element) : open_element :=
  mkOpen (o_tag o) (o_attrib o) (e :: o_children o).

Definition close_element (o : open_element) : Element :=
  Elem (o_tag o) (o_attrib o) (rev (o_children o)).

(** A start tag, given what follows its [<]: the element opened, whether
    the tag is an empty-element tag, and what follows the tag. *)
Definition start_tag (s : str) : option (open_element * bool * str) :=
  match parse_name s with
  | Some (name, s1) =>
      match attributes (S (length s1)) [] s1 with
      | Some (a, 62 :: s2) => Some (mkOpen name a [], false, s2)
      | Some (a, 47 :: 62 :: s2) => Some (mkOpen name a [], true, s2)
      | _ => None
      end
  | None => None
  end.

(** The content of the open elements [top :: stack], up to the end tag
    of the outermost one: the root element and what follows it. *)
Fixpoint content (fuel : nat) (top : open_element) (stack : list open_element)
  (s : str) : option (Element * str) :=
  match fuel with
  | O => None
  | S fuel' =>
      if startswith (py "<!--") s then
        match after (py "--") (skipn 4 s) with
        | Some (62 :: rest) => content fuel' top stack rest
        | _ => None
        end
      else if startswith (py "<![CDATA[") s then
        match after (py "]]>") (skipn 9 s) with
        | Some rest => content fuel' top stack rest
        | None => None
        end
      else if startswith (py "<?") s then
        match after (py "?>") (skipn 2 s) with
        | Some rest => content fuel' top stack rest
        | None => None
        end
      else if startswith (py "</") s then
        match parse_name (skipn 2 s) with
        | Some (name, s1) =>
            match skip_space s1 with
            | 62 :: rest =>
                if str_eqb name (o_tag top) then
                  match stack with
                  | [] => Some (close_element top, rest)
                  | parent :: stack' =>
                      content fuel' (add_child (close_element top) parent)
                              stack' rest
                  end
                else None
            | _ => None
            end
        | None => None
        end
      else
        match s with
        | [] => None
        | c :: s' =>
            if c =? lt_sign then
              match start_tag s' with
              | Some (o, true, rest) =>
                  content fuel' (add_child (close_element o) top) stack rest
              | Some (o, false, rest) => content fuel' o (top :: stack) rest
              | None => None
              end
            else if c =? amp then
              match parse_reference s' with
              | Some (_, rest) => content fuel' top stack rest
              | None => None
              end
            else if is_xml_char c then content fuel' top stack s'
            else None
        end
  end.

(** White space, comments and processing instructions before and after
    the root element: what follows them. *)
Fixpoint misc (fuel : nat) (s : str) : option str :=
  match fuel with
  | O => None
  | S fuel' =>
      let s1 := skip_space s in
      if startswith (py "<!--") s1 then
        match after (py "--") (skipn 4 s1) with
        | Some (62 :: rest) => misc fuel' rest
        | _ => None
        end
      else if startswith (py "<?") s1 then
        match after (py "?>") (skipn 2 s1) with
        | Some rest => misc fuel' rest
        | None => None
        end
      else Some s1
  end.

Definition document (s : str) : option Element :=
  match misc (S (length s)) s with
  | Some (60 :: s1) =>
      match start_tag s1 with
      | Some (o, empty, s2) =>
          let root :=
            if empty then Some (close_element o, s2)
            else content (S (length s2)) o [] s2 in
          match root with
          | Some (e, s3) =>
              match misc (S (length s3)) s3 with
              | Some [] => Some e
              | _ => None
              end
          | None => None
          end
      | None => None
      end
  | _ => None
  end.

Definition ET_fromstring (s : str) : result Element :=
  match document s with
  | Some root => Ok root
  | None => Raise (ParseError (py "not well-formed"))
  end.

(** *** A model of the character-reference substitution of
    [html.unescape], on the references of XML: the five predefined
    entities and numeric references to XML characters, each with its
    semicolon.  Any other [&] is kept as it is. *)
Fixpoint charref_sub (skip : nat) (s : str) : str :=
  match s with
  | [] => []
  | c :: s' =>
      match skip with
      | S k => charref_sub k s'
      | O =>
          if c =? amp then
            match parse_reference s' with
            | Some (x, rest) => x :: charref_sub (length s' - length rest) s'
            | None => c :: charref_sub 0 s'
            end
          else c :: charref_sub 0 s'
      end
  end.

(** *** A model of [Path(p).stem] for POSIX paths: the last component
    that is neither empty nor a single dot, up to its last dot when that
    dot is neither first nor last. *)
Fixpoint split (sep : char) (cur : str) (s : str) : list str :=
  match s with
  | [] => [cur]
  | c :: s' =>
      if c =? sep then cur :: split sep [] s' else split sep (cur ++ [c]) s'
  end.

Definition path_name (p : str) : str :=
  last (filter (fun x => negb (str_eqb x [] || str_eqb x (py ".")))
               (split 47 [] p)) [].

Fixpoint rfind (c : char) (s : str) : option nat :=
  match s with
  | [] => None
  | x :: s' =>
      match rfind c s' with
      | Some i => Some (S i)
      | None => if x =? c then Some 0%nat else None
      end
  end.

Definition posix_stem (p : str) : str :=
  let name := path_name p in
  match rfind 46 name with
  | Some i =>
      if (0 <? i)%nat && (i <? length name - 1)%nat then firstn i name
      else name
  | None => name
  end.

(** The environment with one readable file. *)
Definition one_file (path content : str) : Env :=
  mkEnv (fun p => if str_eqb p path then Ok content
                  else Raise (OtherError (py "No such file or directory")))
        ET_fromstring (charref_sub 0) posix_stem.

(** ** Vocabulary of the properties *)

(** The list a call returned ([[]] if it raised). *)
Definition returned (r : result (list Feed) * list event) : list Feed :=
  match fst r with
  | Ok l => l
  | Raise _ => []
  end.

(** The records one run of a loop body appends. *)
Definition records_of (body : M unit) : list Feed :=
  feeds (snd (body (mkState [] []))).

Definition primary_emit (env : Env) (category : str) (outline : Element)
  : list Feed :=
  records_of (primary_step env category outline).

Definition fallback_emit (env : Env) (category : str) (m : Match)
  : list Feed :=
  records_of (fallback_step env category m).

(** The records of the tree walk over a parsed document, and of the
    pattern scan over a text. *)
Definition tree_records (env : Env) (category : str) (root : Element)
  : list Feed :=
  flat_map (primary_emit env category)
           (findall_descendants (py "outline") root).

Definition scan_records (env : Env) (category : str) (text : str)
  : list Feed :=
  flat_map (fallback_emit env category) (re_finditer outline_pattern text).

(** How many times a file was opened. *)
Definition opens (l : list event) : nat :=
  length (filter (fun e => match e with Opened _ => true | _ => false end) l).

(** ** Example documents *)

(** A document that stays malformed after normalization (the outline
    is closed by the end tag of body) and holds a bare ampersand. *)
Definition broken_path : str := py "feeds/news.opml".

Definition broken_content : str :=
  py "<opml><body><outline text=" ++ dq (py "X") ++ py " xmlUrl="
  ++ dq (py "http://b.com/feed?a=1&b=2") ++ py "></body></opml>".

Definition broken_env : Env := one_file broken_path broken_content.


(** Scenario 1 of the specification. *)
Definition tech_content : str :=
  py "<opml><body><outline text=" ++ dq (py "Tech") ++ py " xmlUrl="
  ++ dq (py "http://a.com/rss") ++ py "/></body></opml>".

Definition tech_env : Env := one_file (py "feeds/news.opml") tech_content.

Definition tech_feed : Feed :=
  mkFeed (py "Tech") [] (py "http://a.com/rss") (py "rss") (py "news").

(** Scenario 5 of the specification, with an empty type attribute. *)
Definition named_outline : Element :=
  Elem (py "outline")
       [(py "text", []); (py "title", py "Fallback Name");
        (py "type", []); (py "xmlUrl", py "http://c.com")] [].

Definition named_tag : str :=
  py "<outline text=" ++ dq [] ++ py " title=" ++ dq (py "Fallback Name")
  ++ py " type=" ++ dq [] ++ py " xmlUrl=" ++ dq (py "http://c.com")
  ++ py "/>".

Definition named_content : str :=
  py "<opml><body>" ++ named_tag ++ py "</body></opml>".

Definition named_env : Env := one_file (py "feeds/misc.opml") named_content.

Definition named_feed : Feed :=
  mkFeed (py "Fallback Name") [] (py "http://c.com") [] (py "misc").

Definition named_match : Match :=
  mkMatch 12 82 named_tag (Some (py "http://c.com")).

(** Scenario 2: a bare ampersand in a title.  Scenario 4: an empty
    xmlUrl. *)
Definition qa_content : str :=
  py "<opml><body><outline text=" ++ dq (py "Q&A Weekly") ++ py " xmlUrl="
  ++ dq (py "http://q.com/feed") ++ py "/></body></opml>".

Definition empty_url_content : str :=
  py "<opml><body><outline text=" ++ dq (py "Folder") ++ py " xmlUrl="
  ++ dq [] ++ py "/></body></opml>".

(** A title with a doubly escaped ampersand. *)
Definition att_content : str :=
  py "<opml><body><outline text=" ++ dq (py "AT&amp;amp;T") ++ py " xmlUrl="
  ++ dq (py "http://d.com/feed") ++ py "/></body></opml>".

Definition att_outline : Element :=
  Elem (py "outline")
       [(py "text", py "AT&amp;T"); (py "xmlUrl", py "http://d.com/feed")] [].

Definition att_env : Env := one_file (py "feeds/biz.opml") att_content.





(** Scenario 1 as a tree. *)
Definition tech_tree : Element :=
  Elem (py "opml") []
    [Elem (py "body") []
       [Elem (py "outline")
             [(py "text", py "Tech"); (py "xmlUrl", py "http://a.com/rss")]
             []]].

(** [parse_opml_file] opens the file once and [parse_opml_file_fallback]
    opens it before anything else: the fallback was attempted exactly
    when the file was opened a second time. *)
Definition fallback_attempted (l : list event) : Prop := (2 <= opens l)%nat.


(** *** Documents written plainly *)

(** A tree written out the plain way: every attribute as a space, the
    name, [=] and the value in double quotes; an element without
    children as an empty-element tag. *)
Definition render_attr (kv : str * str) : str :=
  py " " ++ fst kv ++ py "=" ++ dq (snd kv).

Fixpoint render (e : Element) : str :=
  match e with
  | Elem t a cs =>
      py "<" ++ t ++ flat_map render_attr a ++
      match cs with
      | [] => py "/>"
      | _ :: _ => py ">" ++ flat_map render cs ++ py "</" ++ t ++ py ">"
      end
  end.













(** *** Normalization, step by step *)

(** The lookahead of the ampersand pattern, positively: an entity
    reference body follows. *)
Definition entity_ahead (s : str) : bool :=
  match run entity_tail (fun _ _ => Some tt) s None with
  | Some _ => true
  | None => false
  end.

(** Step 1 as a scan: an ampersand that no entity body follows becomes
    [&amp;]. *)
Fixpoint escape_amp (s : str) : str :=
  match s with
  | [] => []
  | c :: s' =>
      if (c =? amp) && negb (entity_ahead s')
      then py "&amp;" ++ escape_amp s'
      else c :: escape_amp s'
  end.

(** Every ampersand of [s] starts a recognized entity reference. *)
Fixpoint amps_ok (s : str) : bool :=
  match s with
  | [] => true
  | c :: s' => (if c =? amp then entity_ahead s' else true) && amps_ok s'
  end.

(** The one-character replacements of [fix_xml_encoding], in the order
    of the calls. *)
Definition typography_table : list (char * str) :=
  [(0x2019, py "'"); (0x201C, [dquote]); (0x201D, [dquote]);
   (0x2013, py "-"); (0x2014, py "-"); (0xA0, py " "); (0x2026, py "...");
   (0x2018, py "'"); (0x2019, py "'"); (0x201C, [dquote]);
   (0x201D, [dquote])].

Definition swap (old : char) (new : str) (c : char) : str :=
  if c =? old then new else [c].

(** What the replacements together make of one character. *)
Definition typography (c : char) : str :=
  fold_left (fun acc p => flat_map (swap (fst p) (snd p)) acc)
            typography_table [c].

(** The code points that the replacements remove. *)
Definition is_special (c : char) : bool :=
  existsb (fun p => c =? fst p) typography_table.

(** A character that no step of the normalization touches. *)
Definition plain (c : char) : bool := negb (c =? amp) && negb (is_special c).

(** Patterns without group and without lookahead. *)
Fixpoint simple (r : regex) : bool :=
  match r with
  | Cat r1 r2 | Alt r1 r2 => simple r1 && simple r2
  | Grp _ | NegAhead _ => false
  | _ => true
  end.






(** [s.find(k)]: the index of the first occurrence of [k] in [s]. *)
Fixpoint find (k s : str) : option nat :=
  if startswith k s then Some 0%nat
  else match s with
       | [] => None
       | _ :: s' => option_map S (find k s')
       end.

(** The attribute [name] of a tag as the fallback reads it: the value
    between the quotes of the first [name=] followed by a quote, when
    that quote is closed. *)
Definition first_attr (name text : str) : option str :=
  let key := name ++ py "=" ++ [dquote] in
  match find key text with
  | None => None
  | Some i =>
      match span (not_char dquote) (skipn (i + length key) text) with
      | (v, _ :: _) => Some v
      | (_, []) => None
      end
  end.

(** The title and the type as the specification words them. *)
Definition chosen_title (text_attr title_attr : option str) : str :=
  match text_attr with
  | Some ((_ :: _) as t) => t
  | _ => match title_attr with
         | Some t => t
         | None => []
         end
  end.

Definition chosen_type (type_attr : option str) : str :=
  match type_attr with
  | Some t => t
  | None => py "rss"
  end.

(** [s[i:j]] *)
Definition substring (i j : nat) (s : str) : str := firstn (j - i) (skipn i s).

(** A pattern read as a grammar: [generates r w g g'] when [r] can
    consume exactly [w], taking group 1 from [g] to [g'].  A lookahead
    consumes nothing; what it forbids is not recorded here. *)
Inductive generates : regex -> str -> groups -> groups -> Prop :=
| G_Emp g : generates Emp [] g g
| G_Chr c g : generates (Chr c) [c] g g
| G_ChrI c x g : ci_eq c x = true -> generates (ChrI c) [x] g g
| G_Cls p x g : p x = true -> generates (Cls p) [x] g g
| G_Cat r1 r2 w1 w2 g g1 g2 :
    generates r1 w1 g g1 -> generates r2 w2 g1 g2 ->
    generates (Cat r1 r2) (w1 ++ w2) g g2
| G_AltL r1 r2 w g g' : generates r1 w g g' -> generates (Alt r1 r2) w g g'
| G_AltR r1 r2 w g g' : generates r2 w g g' -> generates (Alt r1 r2) w g g'
| G_Star p w g : forallb p w = true -> generates (Star p) w g g
| G_StarLazy p w g : forallb p w = true -> generates (StarLazy p) w g g
| G_Plus p x w g :
    p x = true -> forallb p w = true -> generates (Plus p) (x :: w) g g
| G_Grp r w g g' : generates r w g g' -> generates (Grp r) w g (Some w)
| G_NegAhead r g : generates (NegAhead r) [] g g.

(** Equality of words under IGNORECASE, the pattern on the left. *)
Definition ci_word (pat w : str) : Prop :=
  Forall2 (fun pc x => ci_eq pc x = true) pat w.


(** ** Vocabulary of the further properties *)




(** The description as the specification words it. *)
Definition chosen_description (description_attr : option str) : str :=
  match description_attr with
  | Some d => d
  | None => []
  end.

(** * The CSV file between the two programs *)

Module Csv.

(** ** [csv.writer] with the default (excel) dialect, as
    [csv.DictWriter] uses it: delimiter comma, quote character the
    double quote, QUOTE_MINIMAL, doubled quotes, line terminator CR LF
    (Python 3.11 and later, where no escape character is set). *)

(** A character that makes the writer quote the field. *)
Definition needs_quotes (c : char) : bool :=
  (c =? 44) || (c =? dquote) || (c =? 13) || (c =? 10).

Definition write_field (f : str) : str :=
  if existsb needs_quotes f
  then dquote :: flat_map (fun c => if c =? dquote then [dquote; dquote]
                                    else [c]) f ++ [dquote]
  else f.

(** The fields of a record, a comma before each but the first. *)
Fixpoint join_fields (fields : list str) : str :=
  match fields with
  | [] => []
  | [f] => write_field f
  | f :: fields' => write_field f ++ 44 :: join_fields fields'
  end.

(** [writer.writerow(fields)] for a record of two fields or more. *)
Definition write_row (fields : list str) : str :=
  join_fields fields ++ [13; 10].

Definition fieldnames : list str :=
  [py "title"; py "description"; py "url"; py "type"; py "category"].

(** [DictWriter.writerow(feed)]: the values in the order of
    [fieldnames]. *)
Definition feed_fields (f : Feed) : list str :=
  [title f; description f; url f; type f; category f].

(** What [convert_opml_to_csv] writes: the header, then one row for
    every feed. *)
Definition text_of (all_feeds : list Feed) : str :=
  write_row fieldnames ++ flat_map (fun f => write_row (feed_fields f)) all_feeds.

(** ** Reading a text file: [open(path, 'r', encoding='utf-8')]
    translates CR LF and CR to LF; iterating over the file gives its
    lines, each with its LF.  [pending] tells that the character before
    was a CR, for which the LF has been given already. *)
Fixpoint translate (pending : bool) (s : str) : str :=
  match s with
  | [] => []
  | c :: s' =>
      if c =? 13 then 10 :: translate true s'
      else if c =? 10 then
        if pending then translate false s' else 10 :: translate false s'
      else c :: translate false s'
  end.

Definition universal_newlines (s : str) : str := translate false s.

Fixpoint lines_from (cur : str) (s : str) : list str :=
  match s with
  | [] => match cur with
          | [] => []
          | _ :: _ => [cur]
          end
  | c :: s' =>
      if c =? 10 then (cur ++ [c]) :: lines_from [] s'
      else lines_from (cur ++ [c]) s'
  end.

Definition lines (s : str) : list str := lines_from [] s.

(** ** [csv.reader] with the default dialect: the state machine of
    the C module (Python 3.11 and later).  With no escape character
    set its two escape states are never entered and are left out. *)

Inductive parser_state : Type :=
| START_RECORD | START_FIELD | IN_FIELD | IN_QUOTED_FIELD
| QUOTE_IN_QUOTED_FIELD | EAT_CRNL.

Record reader : Type := mkReader {
  state : parser_state;
  fields : list str;     (* the fields saved so far *)
  field : str            (* the field being read *)
}.

(** [parse_reset] *)
Definition reset : reader := mkReader START_RECORD [] [].

(** [csv.field_size_limit()] *)
Definition field_limit : N := 131072.

(** A character, or the end of a line. *)
Inductive token : Type :=
| Char (c : char)
| EOL.

Definition is_newline (t : token) : bool :=
  match t with
  | Char c => (c =? 10) || (c =? 13)
  | EOL => false
  end.

(** The two ways the reader raises [csv.Error] with this dialect. *)
Inductive error : Type :=
| FieldTooLarge
| NewlineInUnquotedField.

(** The text of the exception (Python 3.12). *)
Definition error_str (e : error) : str :=
  match e with
  | FieldTooLarge => py "field larger than field limit (131072)"
  | NewlineInUnquotedField =>
      py "new-line character seen in unquoted field - do you need to open the file in universal-newline mode?"
  end.

Inductive parsed (A : Type) : Type :=
| Parsed (a : A)
| Failed (e : error).
Arguments Parsed {A} a.
Arguments Failed {A} e.

Definition parse_save_field (r : reader) (next : parser_state) : reader :=
  mkReader next (fields r ++ [field r]) [].

(** [parse_add_char] *)
Definition parse_add_char (r : reader) (next : parser_state) (c : char)
  : parsed reader :=
  if field_limit <=? N.of_nat (length (field r)) then Failed FieldTooLarge
  else Parsed (mkReader next (fields r) (field r ++ [c])).

Definition set_state (r : reader) (next : parser_state) : reader :=
  mkReader next (fields r) (field r).

(** [parse_process_char] *)
Definition parse_process_char (r : reader) (t : token) : parsed reader :=
  let start_field :=
    match t with
    | EOL => Parsed (parse_save_field r START_RECORD)
    | Char c =>
        if is_newline t then Parsed (parse_save_field r EAT_CRNL)
        else if c =? dquote then Parsed (set_state r IN_QUOTED_FIELD)
        else if c =? 44 then Parsed (parse_save_field r START_FIELD)
        else parse_add_char r IN_FIELD c
    end in
  match state r with
  | START_RECORD =>
      match t with
      | EOL => Parsed r
      | Char _ =>
          if is_newline t then Parsed (set_state r EAT_CRNL) else start_field
      end
  | START_FIELD => start_field
  | IN_FIELD =>
      match t with
      | EOL => Parsed (parse_save_field r START_RECORD)
      | Char c =>
          if is_newline t then Parsed (parse_save_field r EAT_CRNL)
          else if c =? 44 then Parsed (parse_save_field r START_FIELD)
          else parse_add_char r IN_FIELD c
      end
  | IN_QUOTED_FIELD =>
      match t with
      | EOL => Parsed r
      | Char c =>
          if c =? dquote then Parsed (set_state r QUOTE_IN_QUOTED_FIELD)
          else parse_add_char r IN_QUOTED_FIELD c
      end
  | QUOTE_IN_QUOTED_FIELD =>
      match t with
      | EOL => Parsed (parse_save_field r START_RECORD)
      | Char c =>
          if c =? dquote then parse_add_char r IN_QUOTED_FIELD c
          else if c =? 44 then Parsed (parse_save_field r START_FIELD)
          else if is_newline t then Parsed (parse_save_field r EAT_CRNL)
          else parse_add_char r IN_FIELD c
      end
  | EAT_CRNL =>
      match t with
      | EOL => Parsed (set_state r START_RECORD)
      | Char _ =>
          if is_newline t then Parsed r else Failed NewlineInUnquotedField
      end
  end.

(** The characters of one line, then the end of the line. *)
Fixpoint process_chars (r : reader) (line : str) : parsed reader :=
  match line with
  | [] => Parsed r
  | c :: line' =>
      match parse_process_char r (Char c) with
      | Parsed r' => process_chars r' line'
      | Failed e => Failed e
      end
  end.

Definition process_line (r : reader) (line : str) : parsed reader :=
  match process_chars r line with
  | Parsed r' => parse_process_char r' EOL
  | Failed e => Failed e
  end.

Definition in_quoted_field (r : reader) : bool :=
  match state r with
  | IN_QUOTED_FIELD => true
  | _ => false
  end.

(** What [next(reader)] does when the lines have ended. *)
Definition at_end (r : reader) : list (list str) :=
  match field r with
  | [] => if in_quoted_field r
          then [fields (parse_save_field r (state r))]
          else []
  | _ :: _ => [fields (parse_save_field r (state r))]
  end.

(** The records of the lines, as successive calls of [next(reader)]
    return them: a record is complete when the end of a line leaves the
    reader at START_RECORD; when the lines end inside a record, what
    has been read is the last record. *)
Fixpoint records (r : reader) (ls : list str) : parsed (list (list str)) :=
  match ls with
  | [] => Parsed (at_end r)
  | l :: ls' =>
      match process_line r l with
      | Failed e => Failed e
      | Parsed r' =>
          match state r' with
          | START_RECORD =>
              match records reset ls' with
              | Parsed rs => Parsed (fields r' :: rs)
              | Failed e => Failed e
              end
          | _ => records r' ls'
          end
      end
  end.

(** ** [csv.DictReader] *)

(** A value of a row: a string, [None] for a missing field, or the
    list of the fields beyond the header, stored under the key
    [None]. *)
Inductive value : Type :=
| VStr (s : str)
| VNone
| VList (l : list str).

Definition row : Type := list (option str * value).

Definition key_eqb (a b : option str) : bool :=
  match a, b with
  | Some x, Some y => str_eqb x y
  | None, None => true
  | _, _ => false
  end.

(** [d[k] = v] *)
Fixpoint setitem (d : row) (k : option str) (v : value) : row :=
  match d with
  | [] => [(k, v)]
  | (k', v') :: d' =>
      if key_eqb k' k then (k', v) :: d' else (k', v') :: setitem d' k v
  end.

(** [d[k]], [None] for KeyError. *)
Fixpoint getitem (d : row) (k : option str) : option value :=
  match d with
  | [] => None
  | (k', v) :: d' => if key_eqb k' k then Some v else getitem d' k
  end.

(** [dict(zip(names, values))], on top of [d]. *)
Fixpoint zip_into (d : row) (names values : list str) : row :=
  match names, values with
  | n :: names', v :: values' => zip_into (setitem d (Some n) (VStr v)) names' values'
  | _, _ => d
  end.

(** One row of [DictReader]: the fields under the names of the header,
    the fields in excess under the key [None], [None] for the names
    without a field. *)
Definition make_row (names : list str) (r : list str) : row :=
  let d := zip_into [] names r in
  if (length names <? length r)%nat
  then setitem d None (VList (skipn (length names) r))
  else fold_left (fun d n => setitem d (Some n) VNone)
                 (skipn (length r) names) d.

Definition is_empty_record (r : list str) : bool :=
  match r with
  | [] => true
  | _ :: _ => false
  end.

(** [list(csv.DictReader(file))]: the first record is the header, empty
    records after it are passed over. *)
Definition dict_rows (text : str) : parsed (list row) :=
  match records reset (lines (universal_newlines text)) with
  | Failed e => Failed e
  | Parsed [] => Parsed []
  | Parsed (names :: rs) =>
      Parsed (map (make_row names)
                  (filter (fun r => negb (is_empty_record r)) rs))
  end.

End Csv.

(** * [convert_opml_to_csv] *)

(** The surroundings of the whole conversion: those of the extraction,
    the directory listing and the opening of the output file.  Once the
    file is open, writing to it is taken not to fail. *)
Record Dir : Type := mkDir {
  files : Env;
  (* glob.glob(pattern) *)
  glob : str -> list str;
  (* open(path, 'w', newline='', encoding='utf-8') *)
  open_w : str -> result unit
}.

Definition endswith_char (c : char) (s : str) : bool :=
  match rev s with
  | x :: _ => x =? c
  | [] => false
  end.

(** [os.path.join(a, b)] of posixpath, for two components. *)
Definition os_path_join (a b : str) : str :=
  if startswith (py "/") b then b
  else match a with
       | [] => b
       | _ :: _ => if endswith_char 47 a then a ++ b else a ++ py "/" ++ b
       end.

(** [os.path.basename(p)] of posixpath. *)
Definition basename (p : str) : str :=
  match rfind 47 p with
  | Some i => skipn (S i) p
  | None => p
  end.

(** [str(n)] for a natural number. *)
Definition decimal (n : N) : str := py (NilZero.string_of_uint (N.to_uint n)).

Definition count {X} (l : list X) : str := decimal (N.of_nat (length l)).

(** The loop over the files; the local [all_feeds] is the [feeds] of
    the state. *)
Definition collect (d : Dir) (opml_files : list str) : M unit :=
  for_each opml_files
    (fun opml_file =>
       print (py "Processing: " ++ basename opml_file) ;;;
       feeds <- call (parse_opml_file (files d) opml_file) ;;
       extend feeds ;;;
       print (py "  Extracted " ++ count feeds ++ py " feeds")).

(** What a conversion leaves behind: the exception it ended with, if
    any, the events, and the file written with its content. *)
Record conversion : Type := mkConversion {
  raised : option exn;
  events : list event;
  written : option (str * str)
}.

Definition convert_opml_to_csv (d : Dir) (input_dir output_file : str)
  : conversion :=
  let opml_pattern := os_path_join input_dir (py "*.opml") in
  let opml_files := glob d opml_pattern in
  match opml_files with
  | [] =>
      mkConversion None
        [Printed (py "No OPML files found in " ++ input_dir)] None
  | _ :: _ =>
      let '(r, st) :=
        (print (py "Found " ++ count opml_files ++ py " OPML files") ;;;
         collect d opml_files ;;;
         return_feeds) (mkState [] []) in
      match r with
      | Raise e => mkConversion (Some e) (log st) None
      | Ok [] =>
          mkConversion None
            (log st ++ [Printed (py "No feeds found to convert")]) None
      | Ok ((_ :: _) as all_feeds) =>
          match open_w d output_file with
          | Raise e => mkConversion (Some e) (log st) None
          | Ok _ =>
              mkConversion None
                (log st ++
                 [Printed (10 :: py "Successfully converted "
                           ++ count all_feeds ++ py " feeds to "
                           ++ output_file)])
                (Some (output_file, Csv.text_of all_feeds))
          end
      end
  end.

(** * The poster: [post_rss_feeds.py] *)

Module Poster.

Inductive exn : Type :=
| FileNotFoundError (msg : str)
| RequestException (msg : str)   (* requests.exceptions.RequestException *)
| OtherException (msg : str).    (* any other Exception *)

Definition exn_str (e : exn) : str :=
  match e with
  | FileNotFoundError m => m
  | RequestException m => m
  | OtherException m => m
  end.

Inductive outcome (A : Type) : Type :=
| Done (a : A)
| Raised (e : exn).
Arguments Done {A} a.
Arguments Raised {A} e.

(** ** [urllib.parse.urlparse(url).netloc], as [urlsplit] of Python
    3.12 computes it *)

(** The characters [urlsplit] strips on the left: C0 controls and the
    space. *)
Definition is_c0_or_space (c : char) : bool := c <=? 0x20.

(** [s.lstrip(...)], for a class of characters. *)
Fixpoint lstrip (p : char -> bool) (s : str) : str :=
  match s with
  | c :: s' => if p c then lstrip p s' else s
  | [] => []
  end.

(** Tab, carriage return and line feed are removed wherever they are. *)
Definition is_unsafe (c : char) : bool := (c =? 9) || (c =? 13) || (c =? 10).

Definition scheme_char (c : char) : bool :=
  is_ascii_letter c || is_ascii_digit c
  || (c =? 43) || (c =? 45) || (c =? 46).

(** Slash, question mark and hash end the netloc. *)
Definition netloc_delim (c : char) : bool :=
  (c =? 47) || (c =? 63) || (c =? 35).

(** [url] after its scheme and colon, when it has a scheme. *)
Definition after_scheme (url : str) : str :=
  match find (py ":") url, url with
  | Some (S i), c :: _ =>
      if is_ascii_letter c && forallb scheme_char (firstn (S i) url)
      then skipn (S (S i)) url
      else url
  | _, _ => url
  end.

(** [_splitnetloc(url, 2)[0]] *)
Definition splitnetloc (url : str) : str :=
  fst (span (fun c => negb (netloc_delim c)) (skipn 2 url)).

Definition is_ascii (c : char) : bool := c <? 128.

(** The two validations whose details are left to the surroundings:
    [_check_bracketed_netloc] and the NFKC test of [_checknetloc];
    [Some msg] is [ValueError(msg)]. *)
Record Checks : Type := mkChecks {
  check_bracketed : str -> option str;
  check_nfkc : str -> option str
}.

Definition netloc (chk : Checks) (url : str) : outcome str :=
  let url := lstrip is_c0_or_space url in
  let url := filter (fun c => negb (is_unsafe c)) url in
  let url := after_scheme url in
  if startswith (py "//") url then
    let netloc := splitnetloc url in
    let opening := contains_char 91 netloc in
    let closing := contains_char 93 netloc in
    if (opening && negb closing) || (closing && negb opening)
    then Raised (OtherException (py "Invalid IPv6 URL"))
    else
      match (if opening && closing then check_bracketed chk netloc
             else None) with
      | Some msg => Raised (OtherException msg)
      | None =>
          match netloc with
          | [] => Done netloc
          | _ :: _ =>
              if forallb is_ascii netloc then Done netloc
              else match check_nfkc chk netloc with
                   | Some msg => Raised (OtherException msg)
                   | None => Done netloc
                   end
          end
      end
  else Done [].

(** ** [extract_domain] *)
Definition extract_domain (chk : Checks) (url : str) : str :=
  match netloc chk url with
  | Done domain =>
      if startswith (py "www.") domain then skipn 4 domain else domain
  | Raised _ => url
  end.

(** ** Effects of the poster *)

(** The JSON payload of a request, with the address it goes to; the
    header and the timeout are the same for all. *)
Record Request : Type := mkRequest {
  endpoint : str;
  r_title : str;
  feedUrl : str;
  domain : str;
  categoryName : str
}.

Inductive reply : Type :=
| Response (status_code : N) (text : str)
| NoResponse (e : exn).

Inductive event : Type :=
| Printed (line : str)
| Requested (r : Request)
| Slept.

(** The [delay] argument: how it prints, and the error [time.sleep]
    raises on it, if any. *)
Record Delay : Type := mkDelay {
  shown : str;
  sleep_error : option str
}.

Record World : Type := mkWorld {
  (* the decoded text of a file, before newline translation *)
  file_text : str -> outcome str;
  (* the reply to a request, given the number of requests before it *)
  reply_to : nat -> Request -> reply;
  checks : Checks
}.

(** The counters of [post_all_feeds] and the events so far. *)
Record state : Type := mkState {
  successful_posts : nat;
  failed_posts : nat;
  out : list event
}.

Definition P (A : Type) : Type := state -> outcome A * state.

Definition ret {A} (a : A) : P A := fun st => (Done a, st).

Definition bind {A B} (m : P A) (f : A -> P B) : P B :=
  fun st =>
    match m st with
    | (Done a, st') => f a st'
    | (Raised e, st') => (Raised e, st')
    end.

Declare Scope poster_scope.
Notation "x <- m ;; f" := (bind m (fun x => f))
  (at level 61, m at next level, right associativity) : poster_scope.
Notation "m ;;; f" := (bind m (fun _ => f))
  (at level 61, right associativity) : poster_scope.
Local Open Scope poster_scope.

Definition raise {A} (e : exn) : P A := fun st => (Raised e, st).

Definition emit (e : event) : P unit :=
  fun st =>
    (Done tt, mkState (successful_posts st) (failed_posts st) (out st ++ [e])).

Definition print (line : str) : P unit := emit (Printed line).

(** [try: body  except ...]: the handler answers [None] for an
    exception no clause catches. *)
Definition catch {A} (body : P A) (handler : exn -> option (P A)) : P A :=
  fun st =>
    match body st with
    | (Done a, st') => (Done a, st')
    | (Raised e, st') =>
        match handler e with
        | Some h => h st'
        | None => (Raised e, st')
        end
    end.

Definition requests_so_far (l : list event) : nat :=
  length (filter (fun e => match e with Requested _ => true | _ => false end) l).

(** [requests.post(api_url, json=payload, headers=headers, timeout=30)] *)
Definition requests_post (w : World) (r : Request) : P (N * str) :=
  fun st =>
    let st' := mkState (successful_posts st) (failed_posts st)
                       (out st ++ [Requested r]) in
    match reply_to w (requests_so_far (out st)) r with
    | Response status_code text => (Done (status_code, text), st')
    | NoResponse e => (Raised e, st')
    end.

(** [time.sleep(delay)] *)
Definition sleep (delay : Delay) : P unit :=
  match sleep_error delay with
  | Some msg => raise (OtherException msg)
  | None => emit Slept
  end.

Definition check_mark : str := [0x2705].
Definition cross_mark : str := [0x274C].
Definition warning_sign : str := [0x26A0; 0xFE0F].
Definition party_popper : str := [0x1F389].

(** ** [post_rss_feed] *)
Definition post_rss_feed (w : World)
  (api_url title feed_url domain category_name : str) : P bool :=
  let payload := mkRequest api_url title feed_url domain category_name in
  catch
    (response <- requests_post w payload ;;
     let '(status_code, text) := response in
     if (status_code =? 200) || (status_code =? 201) then
       print (check_mark ++ py " Successfully posted: " ++ title) ;;;
       ret true
     else
       print (cross_mark ++ py " Failed to post " ++ title ++ py ": HTTP "
              ++ decimal status_code ++ py " - " ++ text) ;;;
       ret false)
    (fun e =>
       match e with
       | RequestException _ =>
           Some (print (cross_mark ++ py " Error posting " ++ title
                        ++ py ": " ++ exn_str e) ;;;
                 ret false)
       | _ => None
       end).

(** ** [post_all_feeds] *)

(** [s.strip()] *)
Definition strip (s : str) : str :=
  rev (lstrip is_space (rev (lstrip is_space s))).

(** [row[key].strip()]: KeyError when the key is missing,
    AttributeError when the value is no string. *)
Definition stripped (row : Csv.row) (key : str) : P str :=
  match Csv.getitem row (Some key) with
  | None => raise (OtherException (py "'" ++ key ++ py "'"))
  | Some (Csv.VStr s) => ret (strip s)
  | Some Csv.VNone =>
      raise (OtherException
               (py "'NoneType' object has no attribute 'strip'"))
  | Some (Csv.VList _) =>
      raise (OtherException (py "'list' object has no attribute 'strip'"))
  end.

Definition is_empty (s : str) : bool :=
  match s with
  | [] => true
  | _ :: _ => false
  end.

Definition add_successful : P unit :=
  fun st => (Done tt, mkState (S (successful_posts st)) (failed_posts st) (out st)).

Definition add_failed : P unit :=
  fun st => (Done tt, mkState (successful_posts st) (S (failed_posts st)) (out st)).

(** The body of the loop, for row number [i]. *)
Definition process_row (w : World) (api_url : str) (delay : Delay)
  (total_feeds i : nat) (row : Csv.row) : P unit :=
  title <- stripped row (py "title") ;;
  feed_url <- stripped row (py "url") ;;
  category_name <- stripped row (py "category") ;;
  if is_empty title || is_empty feed_url || is_empty category_name then
    print (warning_sign ++ py "  Skipping row " ++ decimal (N.of_nat i)
           ++ py ": Missing required fields")
  else
    let domain := extract_domain (checks w) feed_url in
    print (py "[" ++ decimal (N.of_nat i) ++ py "/"
           ++ decimal (N.of_nat total_feeds) ++ py "] Processing: "
           ++ title ++ py " (" ++ category_name ++ py ")") ;;;
    success <- post_rss_feed w api_url title feed_url domain category_name ;;
    (if success then add_successful else add_failed) ;;;
    if (i <? total_feeds)%nat then sleep delay else ret tt.

(** [for i, row in enumerate(rows, i): ...] *)
Fixpoint process_rows (w : World) (api_url : str) (delay : Delay)
  (total_feeds i : nat) (rows : list Csv.row) : P unit :=
  match rows with
  | [] => ret tt
  | row :: rows' =>
      process_row w api_url delay total_feeds i row ;;;
      process_rows w api_url delay total_feeds (S i) rows'
  end.

(** [open(csv_file, 'r', encoding='utf-8')] and
    [list(csv.DictReader(file))]. *)
Definition read_rows (w : World) (csv_file : str) : P (list Csv.row) :=
  match file_text w csv_file with
  | Raised e => raise e
  | Done text =>
      match Csv.dict_rows text with
      | Csv.Parsed rows => ret rows
      | Csv.Failed e => raise (OtherException (Csv.error_str e))
      end
  end.

Definition summary (total_feeds : nat) : P unit :=
  print [] ;;;
  print (py "Summary:") ;;;
  print (py "Total feeds processed: " ++ decimal (N.of_nat total_feeds)) ;;;
  successful <- (fun st => (Done (successful_posts st), st)) ;;
  print (py "Successful posts: " ++ decimal (N.of_nat successful)) ;;;
  failed <- (fun st => (Done (failed_posts st), st)) ;;
  print (py "Failed posts: " ++ decimal (N.of_nat failed)) ;;;
  if (0 <? failed)%nat then
    print (10 :: warning_sign ++ py "  " ++ decimal (N.of_nat failed)
           ++ py " feeds failed to post. Check the error messages above.")
  else
    print (10 :: party_popper ++ py " All feeds posted successfully!").

(** The body returns [Some total_feeds] when the [try] block ends
    normally, [None] when a handler has returned from the function. *)
Definition post_all_feeds (w : World) (csv_file api_url : str)
  (delay : Delay) : P unit :=
  print (py "RSS Feed Poster") ;;;
  print (repeat 61 50) ;;;
  print (py "Reading from: " ++ csv_file) ;;;
  print (py "Posting to: " ++ api_url) ;;;
  print (py "Delay between requests: " ++ shown delay ++ py "s") ;;;
  print [] ;;;
  finished <-
    catch
      (rows <- read_rows w csv_file ;;
       let total_feeds := length rows in
       print (py "Found " ++ decimal (N.of_nat total_feeds)
              ++ py " feeds to process") ;;;
       print [] ;;;
       process_rows w api_url delay total_feeds 1 rows ;;;
       ret (Some total_feeds))
      (fun e =>
         match e with
         | FileNotFoundError _ =>
             Some (print (cross_mark ++ py " Error: Could not find file '"
                          ++ csv_file ++ py "'") ;;;
                   ret None)
         | _ =>
             Some (print (cross_mark ++ py " Error reading CSV file: "
                          ++ exn_str e) ;;;
                   ret None)
         end) ;;
  match finished with
  | Some total_feeds => summary total_feeds
  | None => ret tt
  end.

(** A run of [post_all_feeds] from the start. *)
Definition run (w : World) (csv_file api_url : str) (delay : Delay)
  : outcome unit * state :=
  post_all_feeds w csv_file api_url delay (mkState 0 0 []).

End Poster.

(** ** Vocabulary of the properties of the conversion *)

(** A computation that does not look at the events before it: from
    any log it does what it does from the empty log, after that log. *)
Definition log_framed {A} (m : M A) : Prop :=
  forall fs l,
    m (mkState fs l)
    = (fst (m (mkState fs [])),
       mkState (feeds (snd (m (mkState fs []))))
               (l ++ log (snd (m (mkState fs []))))).

(** The records of the files the pattern finds, file after file in the
    order of the listing. *)
Definition all_feeds_of (d : Dir) (input_dir : str) : list Feed :=
  flat_map (fun p => returned (run_parse (files d) p))
           (glob d (os_path_join input_dir (py "*.opml"))).

(** ** Vocabulary of the properties of the poster *)

(** A character of a plain host: ASCII, none of the characters that
    end the netloc, none that [urlsplit] removes, no bracket. *)
Definition host_char (c : char) : bool :=
  Poster.is_ascii c && negb (Poster.netloc_delim c)
  && negb (Poster.is_unsafe c) && negb (c =? 91) && negb (c =? 93).

(** Nothing, or something that begins with slash, question mark or
    hash. *)
Definition path_like (rest : str) : Prop :=
  match rest with
  | [] => True
  | c :: _ => Poster.netloc_delim c = true
  end.

(** ** Vocabulary of the properties of the CSV file *)

(** A field with its double quotes doubled. *)
Definition doubled (f : str) : str :=
  flat_map (fun c => if c =? dquote then [dquote; dquote] else [c]) f.

(** A field as it stands in the text once the newlines are translated:
    quoted when the writer quoted it, its own CR LF and CR turned into
    LF. *)
Definition lf_field (f : str) : str :=
  if existsb Csv.needs_quotes f
  then dquote :: doubled (Csv.universal_newlines f) ++ [dquote]
  else f.

Fixpoint lf_join (fields : list str) : str :=
  match fields with
  | [] => []
  | [f] => lf_field f
  | f :: fields' => lf_field f ++ 44 :: lf_join fields'
  end.

Definition lf_text (rows : list (list str)) : str :=
  flat_map (fun fields => lf_join fields ++ [10]) rows.

(** A record, in front of the records that follow if reading them
    succeeds. *)
Definition then_records (r : list str) (p : Csv.parsed (list (list str)))
  : Csv.parsed (list (list str)) :=
  match p with
  | Csv.Parsed rs => Csv.Parsed (r :: rs)
  | Csv.Failed e => Csv.Failed e
  end.

(** The reader seen character by character: after every LF the line
    ends; [midline] tells that the line at hand has characters
    already. *)
Fixpoint stream (r : Csv.reader) (midline : bool) (s : str)
  : Csv.parsed (list (list str)) :=
  match s with
  | [] =>
      if midline then
        match Csv.parse_process_char r Csv.EOL with
        | Csv.Failed e => Csv.Failed e
        | Csv.Parsed r' =>
            match Csv.state r' with
            | Csv.START_RECORD =>
                Csv.Parsed (Csv.fields r' :: Csv.at_end Csv.reset)
            | _ => Csv.Parsed (Csv.at_end r')
            end
        end
      else Csv.Parsed (Csv.at_end r)
  | c :: s' =>
      match Csv.parse_process_char r (Csv.Char c) with
      | Csv.Failed e => Csv.Failed e
      | Csv.Parsed r1 =>
          if c =? 10 then
            match Csv.parse_process_char r1 Csv.EOL with
            | Csv.Failed e => Csv.Failed e
            | Csv.Parsed r2 =>
                match Csv.state r2 with
                | Csv.START_RECORD =>
                    then_records (Csv.fields r2) (stream Csv.reset false s')
                | _ => stream r2 false s'
                end
            end
          else stream r1 true s'
      end
  end.

(** A record with the newlines of each field translated, as reading
    the file translates them. *)
Definition translated (f : Feed) : Feed :=
  mkFeed (Csv.universal_newlines (title f))
         (Csv.universal_newlines (description f))
         (Csv.universal_newlines (url f))
         (Csv.universal_newlines (type f))
         (Csv.universal_newlines (category f)).

(** The row [csv.DictReader] gives for a record. *)
Definition row_of (f : Feed) : Csv.row :=
  [(Some (py "title"), Csv.VStr (title f));
   (Some (py "description"), Csv.VStr (description f));
   (Some (py "url"), Csv.VStr (url f));
   (Some (py "type"), Csv.VStr (type f));
   (Some (py "category"), Csv.VStr (category f))].

(** No field is longer than the reader accepts. *)
Definition within_limit (f : Feed) : Prop :=
  Forall (fun x => N.of_nat (length x) <= Csv.field_limit)
         (Csv.feed_fields f).

(** No field holds a carriage return. *)
Definition no_cr (f : Feed) : bool :=
  forallb (forallb (not_char 13)) (Csv.feed_fields f).

(** Two records for the examples: one whose fields need quoting, one
    with a carriage return in its description. *)
Definition quoted_feed : Feed :=
  mkFeed (py "News, " ++ dq (py "daily")) (py "first" ++ [10] ++ py "second")
         (py "https://www.example.com/feed") (py "rss") (py "news").

Definition cr_feed : Feed :=
  mkFeed (py "Tech") (py "one" ++ [13] ++ py "two")
         (py "https://example.org/rss") (py "rss") (py "tech").

(** ** Vocabulary of the properties of [post_all_feeds] *)

(** The requests made and the pauses taken, in a sequence of events. *)
Definition requests (l : list Poster.event) : list Poster.Request :=
  flat_map (fun e => match e with
                     | Poster.Requested r => [r]
                     | _ => []
                     end) l.

Definition sleeps (l : list Poster.event) : nat :=
  length (filter (fun e => match e with
                           | Poster.Slept => true
                           | _ => false
                           end) l).

(** The message of the exception that reading [key] in [row] and
    stripping it raises, if it raises. *)
Definition value_error (row : Csv.row) (key : str) : option str :=
  match Csv.getitem row (Some key) with
  | None => Some (py "'" ++ key ++ py "'")
  | Some (Csv.VStr _) => None
  | Some Csv.VNone => Some (py "'NoneType' object has no attribute 'strip'")
  | Some (Csv.VList _) => Some (py "'list' object has no attribute 'strip'")
  end.

(** The first such message among title, url and category. *)
Definition row_error (row : Csv.row) : option str :=
  match value_error row (py "title") with
  | Some msg => Some msg
  | None =>
      match value_error row (py "url") with
      | Some msg => Some msg
      | None => value_error row (py "category")
      end
  end.

(** The stripped title, URL and category of a row that has the three
    as strings. *)
Definition row_values (row : Csv.row) : option (str * str * str) :=
  match Csv.getitem row (Some (py "title")),
        Csv.getitem row (Some (py "url")),
        Csv.getitem row (Some (py "category")) with
  | Some (Csv.VStr t), Some (Csv.VStr u), Some (Csv.VStr c) =>
      Some (Poster.strip t, Poster.strip u, Poster.strip c)
  | _, _, _ => None
  end.

(** The request a row is due: none when one of the three values is
    empty once stripped. *)
Definition request_of (chk : Poster.Checks) (api_url : str) (row : Csv.row)
  : option Poster.Request :=
  match row_values row with
  | Some (t, u, c) =>
      if Poster.is_empty t || Poster.is_empty u || Poster.is_empty c
      then None
      else Some (Poster.mkRequest api_url t u (Poster.extract_domain chk u) c)
  | None => None
  end.

Definition due (chk : Poster.Checks) (api_url : str) (rows : list Csv.row)
  : list Poster.Request :=
  flat_map (fun row => match request_of chk api_url row with
                       | Some r => [r]
                       | None => []
                       end) rows.

(** A reply that counts as a success. *)
Definition is_accepted (rp : Poster.reply) : bool :=
  match rp with
  | Poster.Response status_code _ => (status_code =? 200) || (status_code =? 201)
  | Poster.NoResponse _ => false
  end.

(** How many of the requests [rs], sent as the requests number [n],
    [n + 1], ..., are accepted. *)
Fixpoint accepted (w : Poster.World) (n : nat) (rs : list Poster.Request)
  : nat :=
  match rs with
  | [] => 0
  | r :: rs' =>
      ((if is_accepted (Poster.reply_to w n r) then 1 else 0)
       + accepted w (S n) rs')%nat
  end.

(** A world in which a request is answered or fails with a
    RequestException, and with nothing else. *)
Definition answers (w : Poster.World) : Prop :=
  forall n r,
    match Poster.reply_to w n r with
    | Poster.Response _ _ => True
    | Poster.NoResponse (Poster.RequestException _) => True
    | Poster.NoResponse _ => False
    end.

(** The lines printed, in a sequence of events. *)
Definition lines_printed (l : list Poster.event) : list str :=
  flat_map (fun e => match e with
                     | Poster.Printed line => [line]
                     | _ => []
                     end) l.

(** A world for the examples: one file, every request accepted. *)
Definition friendly (path text : str) : Poster.World :=
  Poster.mkWorld
    (fun p => if str_eqb p path then Poster.Done text
              else Poster.Raised (Poster.FileNotFoundError
                                    (py "No such file or directory")))
    (fun _ _ => Poster.Response 200 (py "ok"))
    (Poster.mkChecks (fun _ => None) (fun _ => None)).

Definition half_second : Poster.Delay := Poster.mkDelay (py "0.5") None.

(** A file whose second row is short: it has no URL and no category. *)
Definition short_row_text : str :=
  py "title,description,url,type,category" ++ [10]
  ++ py "First,,https://a.example/feed,rss,news" ++ [10]
  ++ py "Second,cut short" ++ [10]
  ++ py "Third,,https://c.example/feed,rss,news" ++ [10].

Definition first_row : Csv.row :=
  row_of (mkFeed (py "First") [] (py "https://a.example/feed") (py "rss")
                 (py "news")).

Definition short_row : Csv.row :=
  [(Some (py "title"), Csv.VStr (py "Second"));
   (Some (py "description"), Csv.VStr (py "cut short"));
   (Some (py "url"), Csv.VNone);
   (Some (py "type"), Csv.VNone);
   (Some (py "category"), Csv.VNone)].

Definition third_row : Csv.row :=
  row_of (mkFeed (py "Third") [] (py "https://c.example/feed") (py "rss")
                 (py "news")).

(** A file whose last row has no title. *)
Definition untitled_last_text : str :=
  py "title,description,url,type,category" ++ [10]
  ++ py "First,,https://a.example/feed,rss,news" ++ [10]
  ++ py ",,https://b.example/feed,rss,news" ++ [10].

Definition untitled_row : Csv.row :=
  row_of (mkFeed [] [] (py "https://b.example/feed") (py "rss") (py "news")).

(** The request a record is due once written and read back: its
    title, URL and category with the newlines translated and the
    white space around them stripped, none when one of them is then
    empty. *)
Definition feed_request (chk : Poster.Checks) (api_url : str) (f : Feed)
  : option Poster.Request :=
  let t := Poster.strip (Csv.universal_newlines (title f)) in
  let u := Poster.strip (Csv.universal_newlines (url f)) in
  let c := Poster.strip (Csv.universal_newlines (category f)) in
  if Poster.is_empty t || Poster.is_empty u || Poster.is_empty c then None
  else Some (Poster.mkRequest api_url t u (Poster.extract_domain chk u) c).

(** A directory for the examples: one OPML file, an output file that
    opens. *)
Definition one_opml (path content : str) : Dir :=
  mkDir (one_file path content) (fun _ => [path]) (fun _ => Ok tt).

(** * Properties *)

Arguments fix_xml_encoding : simpl never.
Arguments re_finditer : simpl never.
Arguments findall_descendants : simpl never.
Arguments py : simpl never.

(** Inverts a derivation of a concatenation. *)
Ltac gen_cat H w1 w2 G1 G2 :=
  let g1 := fresh "g" in
  inversion H as [| | | |? ? w1 w2 ? g1 ? G1 G2| | | | | | |]; subst; clear H.

(** Unfolds the monadic operations and reduces what has become
    determined. *)
Ltac exec :=
  repeat progress
    (unfold try_except, bind, read_file, emit, lift, return_feeds, print,
       extend, ret;
     cbn [fst snd feeds log]).

(** ** Document order of the tree walk *)

















(** ** The matcher only returns what the pattern generates *)

Section Matcher.

Context {R : Type}.

Lemma rep_greedy_sound p (k : cont R) s g x :
  rep_greedy p k s g = Some x ->
  exists w s', s = w ++ s' /\ forallb p w = true /\ k s' g = Some x.
Proof.
  revert x; induction s as [|c s IH]; intros x H; cbn in H.
  - exists [], []; auto.
  - destruct (p c) eqn:Hp.
    + destruct (rep_greedy p k s g) as [y|] eqn:Hrec.
      * injection H as <-. destruct (IH _ eq_refl) as (w & s' & -> & Hw & Hk).
        exists (c :: w), s'; cbn; rewrite Hp, Hw; auto.
      * exists [], (c :: s); auto.
    + exists [], (c :: s); auto.
Qed.

Lemma rep_lazy_sound p (k : cont R) s g x :
  rep_lazy p k s g = Some x ->
  exists w s', s = w ++ s' /\ forallb p w = true /\ k s' g = Some x.
Proof.
  revert x; induction s as [|c s IH]; intros x H; cbn in H.
  - destruct (k [] g) eqn:Hk; [|discriminate].
    exists [], []; rewrite Hk; auto.
  - destruct (k (c :: s) g) eqn:Hk.
    + exists [], (c :: s); rewrite Hk; auto.
    + destruct (p c) eqn:Hp; [|discriminate].
      destruct (IH _ H) as (w & s' & -> & Hw & Hk').
      exists (c :: w), s'; cbn; rewrite Hp, Hw; auto.
Qed.

Lemma one_sound p (k : cont R) s g x :
  one p k s g = Some x ->
  exists c s', s = c :: s' /\ p c = true /\ k s' g = Some x.
Proof.
  destruct s as [|c s]; cbn; [discriminate|].
  destruct (p c) eqn:Hp; [|discriminate]. eauto.
Qed.

End Matcher.

Lemma run_sound r : forall R (k : cont R) s g x,
  run r k s g = Some x ->
  exists w s' g', s = w ++ s' /\ generates r w g g' /\ k s' g' = Some x.
Proof.
  induction r as [|c|c|p|r1 IH1 r2 IH2|r1 IH1 r2 IH2|p|p|p|r1 IH1|r1 IH1];
    intros R k s g x H; cbn in H.
  - exists [], s, g; repeat split; auto. constructor.
  - apply one_sound in H as (c' & s' & -> & Hc & Hk).
    apply N.eqb_eq in Hc as ->.
    exists [c], s', g; repeat split; auto. constructor.
  - apply one_sound in H as (c' & s' & -> & Hc & Hk).
    exists [c'], s', g; repeat split; auto. now constructor.
  - apply one_sound in H as (c' & s' & -> & Hc & Hk).
    exists [c'], s', g; repeat split; auto. now constructor.
  - apply IH1 in H as (w1 & s1 & g1 & -> & G1 & H).
    apply IH2 in H as (w2 & s2 & g2 & -> & G2 & H).
    exists (w1 ++ w2), s2, g2; repeat split; auto.
    + now rewrite app_assoc.
    + econstructor; eauto.
  - destruct (run r1 k s g) as [y|] eqn:H1.
    + injection H as <-. apply IH1 in H1 as (w & s' & g' & -> & G & H).
      exists w, s', g'; repeat split; auto. now apply G_AltL.
    + apply IH2 in H as (w & s' & g' & -> & G & H).
      exists w, s', g'; repeat split; auto. now apply G_AltR.
  - apply rep_greedy_sound in H as (w & s' & -> & Hw & Hk).
    exists w, s', g; repeat split; auto. now constructor.
  - apply rep_lazy_sound in H as (w & s' & -> & Hw & Hk).
    exists w, s', g; repeat split; auto. now constructor.
  - apply one_sound in H as (c & s1 & -> & Hc & H).
    apply rep_greedy_sound in H as (w & s' & -> & Hw & Hk).
    exists (c :: w), s', g; repeat split; auto. now constructor.
  - apply IH1 in H as (w & s' & g' & -> & G & H).
    rewrite length_app, Nat.add_sub, firstn_app, Nat.sub_diag, firstn_all in H.
    cbn in H; rewrite app_nil_r in H.
    exists w, s', (Some w); repeat split; auto. econstructor; eauto.
  - destruct (run r1 _ s g); [discriminate|].
    exists [], s, g; repeat split; auto. constructor.
Qed.

(** An anchored match: the length returned is that of a generated
    prefix. *)
Lemma match_at_sound r s n g :
  match_at r s = Some (n, g) ->
  exists w s', s = w ++ s' /\ n = length w /\ generates r w None g.
Proof.
  unfold match_at; intros H.
  apply run_sound in H as (w & s' & g' & -> & G & H).
  injection H as <- <-.
  exists w, s'; repeat split; auto.
  rewrite length_app. lia.
Qed.

Lemma generates_lit l w g g' :
  generates (lit l) w g g' -> w = l /\ g' = g.
Proof.
  revert w g g'; induction l as [|c l IH]; intros w g g' H; cbn in H.
  - inversion H; auto.
  - inversion H as [| | | |? ? w1 w2 ? g1 ? H1 H2| | | | | | |]; subst.
    inversion H1; subst. apply IH in H2 as [-> ->]. auto.
Qed.

Lemma generates_litI l w g g' :
  generates (litI l) w g g' -> ci_word l w /\ g' = g.
Proof.
  revert w g g'; induction l as [|c l IH]; intros w g g' H; cbn in H.
  - inversion H; split; auto. constructor.
  - inversion H as [| | | |? ? w1 w2 ? g1 ? H1 H2| | | | | | |]; subst.
    inversion H1; subst. apply IH in H2 as [Hw ->]. split; auto.
    now constructor.
Qed.

(** ** [finditer] goes from left to right *)




(** Every match object describes a piece of the text that the pattern
    generates. *)
Lemma finditer_go_sound r s : forall pos skip pre m,
  length pre = pos ->
  In m (finditer_go r pos skip s) ->
  group0 m = substring (m_start m) (m_end m) (pre ++ s)
  /\ m_end m = (m_start m + length (group0 m))%nat
  /\ (m_end m <= length (pre ++ s))%nat
  /\ generates r (group0 m) None (group1 m).
Proof.
  induction s as [|c s IH]; intros pos skip pre m Hpre Hin; cbn in Hin;
    [contradiction|].
  assert (Hrec : forall k, In m (finditer_go r (S pos) k s) ->
            group0 m = substring (m_start m) (m_end m) (pre ++ c :: s)
            /\ m_end m = (m_start m + length (group0 m))%nat
            /\ (m_end m <= length (pre ++ c :: s))%nat
            /\ generates r (group0 m) None (group1 m)).
  { intros k Hk.
    replace (pre ++ c :: s) with ((pre ++ [c]) ++ s)
      by (rewrite <- app_assoc; reflexivity).
    apply (IH (S pos) k); auto. rewrite length_app; cbn; lia. }
  destruct skip as [|k]; [|eauto].
  destruct (match_at r (c :: s)) as [[n g]|] eqn:Hm; [|eauto].
  destruct Hin as [<-|Hin]; [|eauto].
  apply match_at_sound in Hm as (w & s' & Hs & -> & G).
  cbn [m_start m_end group0 group1]. rewrite Hs.
  unfold substring.
  replace (pos + length w - pos)%nat with (length w) by lia.
  rewrite <- Hpre, skipn_app, skipn_all, Nat.sub_diag; cbn [skipn app].
  rewrite firstn_app, Nat.sub_diag, firstn_all; cbn [firstn].
  rewrite app_nil_r. repeat split; auto.
  rewrite !length_app. lia.
Qed.

Lemma finditer_sound r s m :
  In m (re_finditer r s) ->
  group0 m = substring (m_start m) (m_end m) s
  /\ m_end m = (m_start m + length (group0 m))%nat
  /\ (m_end m <= length s)%nat
  /\ generates r (group0 m) None (group1 m).
Proof. intros H. exact (finditer_go_sound r s 0 [] m eq_refl H). Qed.


(** ** On simple patterns the matcher finds whatever is generated *)

Lemma generates_simple r w g g' :
  simple r = true -> generates r w g g' -> g' = g.
Proof.
  intros Hs G; induction G; cbn in Hs; try discriminate; auto;
    apply andb_true_iff in Hs as [H1 H2]; auto.
  rewrite (IHG2 H2). auto.
Qed.

Lemma rep_greedy_continue {R} p (k : cont R) s g :
  k s g <> None -> rep_greedy p k s g <> None.
Proof.
  intros Hk. destruct s as [|c s]; cbn; [assumption|].
  destruct (p c); [|assumption].
  destruct (rep_greedy p k s g); [discriminate|assumption].
Qed.

Lemma rep_greedy_complete {R} p (k : cont R) w t g :
  forallb p w = true -> k t g <> None -> rep_greedy p k (w ++ t) g <> None.
Proof.
  intros Hw Hk; induction w as [|c w IH]; cbn.
  - now apply rep_greedy_continue.
  - cbn in Hw. apply andb_true_iff in Hw as [Hc Hw]. rewrite Hc.
    destruct (rep_greedy p k (w ++ t) g) eqn:E; [discriminate|].
    now apply IH in Hw.
Qed.

Lemma rep_lazy_complete {R} p (k : cont R) w t g :
  forallb p w = true -> k t g <> None -> rep_lazy p k (w ++ t) g <> None.
Proof.
  intros Hw Hk; induction w as [|c w IH]; cbn [app].
  - destruct t; cbn; destruct (k _ g); try discriminate; now elim Hk.
  - cbn in Hw. apply andb_true_iff in Hw as [Hc Hw]. cbn.
    destruct (k (c :: w ++ t) g); [discriminate|]. rewrite Hc. auto.
Qed.

Lemma run_complete r w g g' :
  generates r w g g' -> simple r = true ->
  forall R (k : cont R) t, k t g <> None -> run r k (w ++ t) g <> None.
Proof.
  intros G; induction G; intros Hs R k t Hk; cbn in Hs |- *;
    try discriminate.
  - assumption.
  - now rewrite N.eqb_refl.
  - now rewrite H.
  - now rewrite H.
  - apply andb_true_iff in Hs as [H1 H2].
    rewrite <- app_assoc. apply IHG1; auto.
    rewrite (generates_simple H1 G1) in *. apply IHG2; auto.
  - apply andb_true_iff in Hs as [H1 H2].
    destruct (run r1 k (w ++ t) g) eqn:E; [discriminate|].
    now apply (IHG H1 R k t) in Hk.
  - apply andb_true_iff in Hs as [H1 H2].
    destruct (run r1 k (w ++ t) g) eqn:E; [discriminate|].
    now apply IHG.
  - now apply rep_greedy_complete.
  - now apply rep_lazy_complete.
  - rewrite H. now apply rep_greedy_complete.
Qed.

(** ** Prefixes and runs *)

Lemma span_spec p s :
  s = fst (span p s) ++ snd (span p s)
  /\ forallb p (fst (span p s)) = true
  /\ match snd (span p s) with
     | [] => True
     | c :: _ => p c = false
     end.
Proof.
  induction s as [|c s IH]; cbn; [auto|].
  destruct (p c) eqn:Hp.
  - destruct (span p s) as [a b]; cbn in *. rewrite Hp.
    destruct IH as (-> & Ha & Hb). auto.
  - cbn. rewrite Hp. auto.
Qed.

Lemma startswith_app k s : startswith k (k ++ s) = true.
Proof. induction k as [|c k IH]; cbn; [auto|]. now rewrite N.eqb_refl. Qed.

Lemma startswith_spec k s :
  startswith k s = true -> s = k ++ skipn (length k) s.
Proof.
  revert s; induction k as [|c k IH]; intros s H; cbn in *; [auto|].
  destruct s as [|x s]; [discriminate|].
  apply andb_true_iff in H as [Hx Hk]. apply N.eqb_eq in Hx as ->.
  f_equal. now apply IH.
Qed.

Lemma run_lit {R} l (k : cont R) s g :
  run (lit l) k s g
  = if startswith l s then k (skipn (length l) s) g else None.
Proof.
  revert s; induction l as [|c l IH]; intros s; cbn; [reflexivity|].
  destruct s as [|x s]; cbn; [reflexivity|].
  destruct (x =? c); cbn; [apply IH|reflexivity].
Qed.

(** A greedy run followed by something that cannot start inside the
    run stops where the run stops. *)
Lemma rep_greedy_span {R} p (k : cont R) s g :
  (forall c t g', p c = true -> k (c :: t) g' = None) ->
  rep_greedy p k s g = k (snd (span p s)) g.
Proof.
  intros Hk; induction s as [|c s IH]; cbn; [reflexivity|].
  destruct (p c) eqn:Hp; [|reflexivity].
  rewrite IH. destruct (span p s) as [a b]; cbn.
  destruct (k b g); [reflexivity|]. now apply Hk.
Qed.

(** ** Normalization *)

Lemma entity_ahead_elim s :
  entity_ahead s = true ->
  exists w t g, s = w ++ t /\ generates entity_tail w None g.
Proof.
  unfold entity_ahead.
  destruct (run entity_tail (fun _ _ => Some tt) s None) eqn:E;
    [|discriminate].
  intros _. apply run_sound in E as (w & t & g & -> & G & _). eauto.
Qed.

Lemma entity_ahead_intro w t g :
  generates entity_tail w None g -> entity_ahead (w ++ t) = true.
Proof.
  intros G. unfold entity_ahead.
  destruct (run entity_tail (fun _ _ => Some tt) (w ++ t) None) eqn:E;
    [reflexivity|].
  exfalso. revert E. apply (run_complete G); [reflexivity|discriminate].
Qed.

Lemma special_cases c :
  is_special c = true ->
  In c [0x2019; 0x201C; 0x201D; 0x2013; 0x2014; 0xA0; 0x2026; 0x2018].
Proof.
  unfold is_special. intros H. apply existsb_exists in H as (p & Hp & Hc).
  apply N.eqb_eq in Hc. subst c.
  cbn in Hp. repeat (destruct Hp as [<-|Hp]; [cbn; tauto|]). contradiction.
Qed.

Lemma not_plain_cases c :
  plain c = false ->
  In c [amp; 0x2019; 0x201C; 0x201D; 0x2013; 0x2014; 0xA0; 0x2026; 0x2018].
Proof.
  unfold plain. intros H. apply andb_false_iff in H as [H|H];
    apply negb_false_iff in H.
  - apply N.eqb_eq in H. left. auto.
  - right. now apply special_cases.
Qed.

Lemma class_plain (p : char -> bool) :
  forallb (fun c => negb (p c))
          [amp; 0x2019; 0x201C; 0x201D; 0x2013; 0x2014; 0xA0; 0x2026; 0x2018]
  = true ->
  forall c, p c = true -> plain c = true.
Proof.
  intros Hp c Hc. destruct (plain c) eqn:E; [reflexivity|].
  apply not_plain_cases in E. rewrite forallb_forall in Hp.
  apply Hp in E. now rewrite Hc in E.
Qed.

Lemma forallb_class_plain (p : char -> bool) w :
  (forall c, p c = true -> plain c = true) ->
  forallb p w = true -> forallb plain w = true.
Proof.
  intros Hp Hw. apply forallb_forall. intros c Hc.
  rewrite forallb_forall in Hw. auto.
Qed.

(** The body of an entity reference holds no ampersand and no character
    that the typographic replacements touch. *)
Lemma entity_body_plain w g g' :
  generates entity_tail w g g' -> forallb plain w = true.
Proof.
  assert (Hdec := class_plain is_decimal eq_refl).
  assert (Hhex := class_plain is_hex eq_refl).
  unfold entity_tail. intros G.
  repeat match goal with
  | H : generates (Alt _ _) _ _ _ |- _ => inversion H; subst; clear H
  | H : generates (lit ?l) _ _ _ |- _ =>
      apply (generates_lit l) in H as [-> ->]; reflexivity
  end.
  - match goal with H : generates _ _ _ _ |- _ =>
      apply (generates_lit (py "amp;")) in H as [-> ->] end. reflexivity.
  - match goal with H : generates _ _ _ _ |- _ =>
      apply (generates_lit (py "lt;")) in H as [-> ->] end. reflexivity.
  - match goal with H : generates _ _ _ _ |- _ =>
      apply (generates_lit (py "gt;")) in H as [-> ->] end. reflexivity.
  - match goal with H : generates _ _ _ _ |- _ =>
      apply (generates_lit (py "quot;")) in H as [-> ->] end. reflexivity.
  - match goal with H : generates _ _ _ _ |- _ =>
      apply (generates_lit (py "apos;")) in H as [-> ->] end. reflexivity.
  - match goal with H : generates _ _ _ _ |- _ => gen_cat H a w1 G1 H1 end.
    gen_cat H1 ds w2 G2 H2.
    inversion G1; inversion G2; inversion H2; subst.
    cbn [app forallb]. rewrite forallb_app.
    rewrite (Hdec x), (forallb_class_plain _ _ Hdec); auto.
  - match goal with H : generates _ _ _ _ |- _ => gen_cat H a w1 G1 H1 end.
    apply (generates_lit (py "#x")) in G1 as [-> ->].
    gen_cat H1 ds w2 G2 H2.
    inversion G2; inversion H2; subst.
    rewrite !forallb_app. cbn [forallb].
    change (forallb plain (py "#x")) with true.
    rewrite (Hhex x), (forallb_class_plain _ _ Hhex); auto.
Qed.

Lemma plain_not_amp c : plain c = true -> (c =? amp) = false.
Proof.
  unfold plain. intros H. apply andb_true_iff in H as [H _].
  now apply negb_true_iff in H.
Qed.

Lemma plain_not_special c : plain c = true -> is_special c = false.
Proof.
  unfold plain. intros H. apply andb_true_iff in H as [_ H].
  now apply negb_true_iff in H.
Qed.

(** *** Step 1 *)

Lemma match_at_bare_amp s :
  match_at bare_amp_pattern s
  = match s with
    | c :: s' =>
        if (c =? amp) && negb (entity_ahead s') then Some (1%nat, None)
        else None
    | [] => None
    end.
Proof.
  unfold match_at, bare_amp_pattern, entity_ahead. cbn [run]. unfold one.
  destruct s as [|c s']; [reflexivity|]. cbn beta.
  destruct (c =? amp); [|reflexivity]. cbn [andb].
  destruct (run entity_tail _ s' None); cbn [negb]; [reflexivity|].
  do 2 f_equal. cbn [length]. lia.
Qed.

Lemma re_sub_escape s :
  re_sub bare_amp_pattern (py "&amp;") s = escape_amp s.
Proof.
  unfold re_sub. induction s as [|c s IH]; cbn [sub_go escape_amp];
    [reflexivity|].
  rewrite match_at_bare_amp.
  destruct ((c =? amp) && negb (entity_ahead s)); cbn [Nat.sub];
    now rewrite IH.
Qed.

Lemma escape_plain_prefix w t :
  forallb plain w = true -> escape_amp (w ++ t) = w ++ escape_amp t.
Proof.
  induction w as [|c w IH]; cbn [app forallb escape_amp]; [reflexivity|].
  intros H. apply andb_true_iff in H as [Hc Hw].
  rewrite (plain_not_amp _ Hc). cbn [andb]. now rewrite IH.
Qed.

Lemma entity_ahead_escape s :
  entity_ahead s = true -> entity_ahead (escape_amp s) = true.
Proof.
  intros H. apply entity_ahead_elim in H as (w & t & g & -> & G).
  rewrite (escape_plain_prefix _ _ (entity_body_plain G)).
  now apply entity_ahead_intro with (g := g).
Qed.

Lemma amps_ok_escape s : amps_ok (escape_amp s) = true.
Proof.
  induction s as [|c s IH]; cbn [escape_amp]; [reflexivity|].
  destruct (c =? amp) eqn:Hc; cbn [andb negb].
  - destruct (entity_ahead s) eqn:He; cbn [negb].
    + cbn [amps_ok]. now rewrite Hc, (entity_ahead_escape _ He), IH.
    + change (py "&amp;" ++ escape_amp s)
        with (amp :: py "amp;" ++ escape_amp s).
      cbn [amps_ok]. rewrite N.eqb_refl.
      change (entity_ahead (py "amp;" ++ escape_amp s)) with true.
      cbn [andb]. exact IH.
  - cbn [amps_ok]. now rewrite Hc, IH.
Qed.

Lemma escape_fixed s : amps_ok s = true -> escape_amp s = s.
Proof.
  induction s as [|c s IH]; cbn [escape_amp amps_ok]; [reflexivity|].
  intros H. apply andb_true_iff in H as [Hc Hs].
  destruct (c =? amp); cbn [andb].
  - rewrite Hc. cbn [negb]. now rewrite IH.
  - now rewrite IH.
Qed.


(** *** Step 2: after step 1 no [&nbsp;] is left to replace *)

Lemma nbsp_fixed s :
  amps_ok s = true -> replace (py "&nbsp;") (py " ") s = s.
Proof.
  change (replace (py "&nbsp;") (py " ") s)
    with (replace_go (py "&nbsp;") (py " ") 0 s).
  induction s as [|c s IH]; cbn [replace_go amps_ok]; [reflexivity|].
  intros H. apply andb_true_iff in H as [Hc Hs].
  destruct (startswith (py "&nbsp;") (c :: s)) eqn:Hk.
  - exfalso. apply startswith_spec in Hk.
    change (py "&nbsp;") with (amp :: 110 :: py "bsp;") in Hk.
    cbn [app length skipn] in Hk. injection Hk as -> Hs'.
    rewrite N.eqb_refl, Hs' in Hc. vm_compute in Hc. discriminate Hc.
  - now rewrite IH.
Qed.

(** *** Step 3: the one-character replacements *)

Lemma replace_single c new s :
  replace [c] new s = flat_map (swap c new) s.
Proof.
  change (replace [c] new s) with (replace_go [c] new 0 s).
  induction s as [|x s IH]; cbn [replace_go flat_map startswith];
    [reflexivity|].
  unfold swap at 1. rewrite andb_true_r.
  destruct (x =? c); cbn [length Nat.sub app]; now rewrite IH.
Qed.

Lemma flat_map_flat_map {A B C} (f : B -> list C) (g : A -> list B) l :
  flat_map f (flat_map g l) = flat_map (fun a => flat_map f (g a)) l.
Proof.
  induction l as [|a l IH]; cbn; [reflexivity|].
  now rewrite flat_map_app, IH.
Qed.

Lemma flat_map_single {A} (l : list A) : flat_map (fun a => [a]) l = l.
Proof. induction l as [|a l IH]; cbn; [reflexivity|]. now rewrite IH. Qed.

Lemma fold_swaps table : forall (g : char -> str) l,
  fold_left (fun acc p => flat_map (swap (fst p) (snd p)) acc) table
            (flat_map g l)
  = flat_map
      (fun c =>
         fold_left (fun acc p => flat_map (swap (fst p) (snd p)) acc) table
                   (g c)) l.
Proof.
  induction table as [|p table IH]; intros g l; cbn [fold_left];
    [reflexivity|].
  now rewrite flat_map_flat_map, IH.
Qed.

(** [fix_xml_encoding] as its three steps. *)
Lemma fix_xml_encoding_steps s :
  fix_xml_encoding s
  = flat_map typography (replace (py "&nbsp;") (py " ") (escape_amp s)).
Proof.
  unfold fix_xml_encoding. rewrite re_sub_escape, !replace_single.
  set (t := replace (py "&nbsp;") (py " ") (escape_amp s)).
  unfold typography.
  rewrite <- (flat_map_single t) at 1.
  rewrite <- (fold_swaps typography_table (fun c => [c]) t).
  rewrite flat_map_single. reflexivity.
Qed.

Lemma swap_other o n c : (c =? o) = false -> flat_map (swap o n) [c] = [c].
Proof. intros H. cbn. unfold swap. now rewrite H. Qed.

Lemma typography_unspecial c : is_special c = false -> typography c = [c].
Proof.
  unfold is_special. cbn [existsb typography_table fst]. intros H.
  repeat (apply orb_false_iff in H as [? H]).
  unfold typography, typography_table. cbn [fold_left fst snd].
  now rewrite !swap_other by assumption.
Qed.

Lemma typography_clean c :
  forallb (fun x => negb (is_special x)) (typography c) = true.
Proof.
  destruct (is_special c) eqn:E.
  - apply special_cases in E.
    repeat (destruct E as [<-|E]; [vm_compute; reflexivity|]). contradiction.
  - rewrite (typography_unspecial _ E). cbn [forallb]. now rewrite E.
Qed.

Lemma typography_no_amp c :
  (c =? amp) = false ->
  forallb (fun x => negb (x =? amp)) (typography c) = true.
Proof.
  intros Hc. destruct (is_special c) eqn:E.
  - apply special_cases in E.
    repeat (destruct E as [<-|E]; [vm_compute; reflexivity|]). contradiction.
  - rewrite (typography_unspecial _ E). cbn [forallb]. now rewrite Hc.
Qed.

Lemma typography_plain_prefix w t :
  forallb plain w = true ->
  flat_map typography (w ++ t) = w ++ flat_map typography t.
Proof.
  induction w as [|c w IH]; cbn [app forallb flat_map]; [reflexivity|].
  intros H. apply andb_true_iff in H as [Hc Hw].
  rewrite (typography_unspecial _ (plain_not_special _ Hc)), IH; auto.
Qed.

Lemma entity_ahead_typography s :
  entity_ahead s = true -> entity_ahead (flat_map typography s) = true.
Proof.
  intros H. apply entity_ahead_elim in H as (w & t & g & -> & G).
  rewrite (typography_plain_prefix _ _ (entity_body_plain G)).
  now apply entity_ahead_intro with (g := g).
Qed.

Lemma amps_ok_unamped l s :
  forallb (fun x => negb (x =? amp)) l = true ->
  amps_ok (l ++ s) = amps_ok s.
Proof.
  induction l as [|x l IH]; cbn [app forallb amps_ok]; [reflexivity|].
  intros H. apply andb_true_iff in H as [Hx Hl].
  apply negb_true_iff in Hx. now rewrite Hx, IH.
Qed.

Lemma amps_ok_typography s :
  amps_ok s = true -> amps_ok (flat_map typography s) = true.
Proof.
  induction s as [|c s IH]; cbn [amps_ok flat_map]; [reflexivity|].
  intros H. apply andb_true_iff in H as [Hc Hs].
  destruct (c =? amp) eqn:E.
  - apply N.eqb_eq in E. subst c.
    change (typography amp) with [amp]. cbn [app amps_ok].
    now rewrite N.eqb_refl, (entity_ahead_typography _ Hc), IH.
  - rewrite (amps_ok_unamped _ _ (typography_no_amp _ E)). auto.
Qed.

Lemma typography_fixed s :
  forallb (fun x => negb (is_special x)) s = true ->
  flat_map typography s = s.
Proof.
  induction s as [|c s IH]; cbn [forallb flat_map]; [reflexivity|].
  intros H. apply andb_true_iff in H as [Hc Hs].
  apply negb_true_iff in Hc.
  now rewrite (typography_unspecial _ Hc), IH.
Qed.

Lemma typography_removes s :
  forallb (fun x => negb (is_special x)) (flat_map typography s) = true.
Proof.
  induction s as [|c s IH]; cbn [flat_map]; [reflexivity|].
  now rewrite forallb_app, typography_clean, IH.
Qed.

(** A normalized text: every ampersand starts a recognized entity
    reference and no character is left for the replacements. *)
Lemma fix_xml_encoding_normal s :
  amps_ok (fix_xml_encoding s) = true
  /\ forallb (fun x => negb (is_special x)) (fix_xml_encoding s) = true.
Proof.
  rewrite fix_xml_encoding_steps.
  rewrite (nbsp_fixed _ (amps_ok_escape s)). split.
  - apply amps_ok_typography, amps_ok_escape.
  - apply typography_removes.
Qed.

Lemma fix_xml_encoding_fixed s :
  amps_ok s = true ->
  forallb (fun x => negb (is_special x)) s = true ->
  fix_xml_encoding s = s.
Proof.
  intros Ha Hs.
  now rewrite fix_xml_encoding_steps, (escape_fixed _ Ha), (nbsp_fixed _ Ha),
    (typography_fixed _ Hs).
Qed.

(** C5: normalizing twice is normalizing once. *)
Theorem C5_fix_xml_encoding_idempotent s :
  fix_xml_encoding (fix_xml_encoding s) = fix_xml_encoding s.
Proof.
  destruct (fix_xml_encoding_normal s) as [Ha Hs].
  now apply fix_xml_encoding_fixed.
Qed.

(** The second step of [fix_xml_encoding] never changes its input: the
    first step has escaped the ampersand of every [&nbsp;]. *)
Lemma nbsp_step_dead s :
  replace (py "&nbsp;") (py " ") (re_sub bare_amp_pattern (py "&amp;") s)
  = re_sub bare_amp_pattern (py "&amp;") s.
Proof. rewrite re_sub_escape. apply nbsp_fixed, amps_ok_escape. Qed.

(** C6 fails on the code: where the input holds [&nbsp;] the output
    holds [&amp;nbsp;], not a space. *)
Theorem C6_nbsp_not_replaced :
  fix_xml_encoding (py "a&nbsp;b") = py "a&amp;nbsp;b"
  /\ fix_xml_encoding (py "a&nbsp;b") <> py "a b".
Proof.
  split; [vm_compute; reflexivity|].
  intros H; vm_compute in H; discriminate H.
Qed.

(** ** What the patterns of the fallback generate *)

(** A match of the outline pattern: the tag keyword, white space, the
    attribute name written [xmlUrl=] in any case, the quoted value that
    group 1 captures, and the rest of the tag up to [>]. *)
Lemma outline_pattern_shape w g :
  generates outline_pattern w None g ->
  exists kw ws a key u b,
    w = kw ++ ws ++ a ++ key ++ u ++ [dquote] ++ b ++ [gt_sign]
    /\ ci_word (py "<outline") kw
    /\ ws <> [] /\ forallb is_space ws = true
    /\ forallb (not_char gt_sign) a = true
    /\ ci_word (py "xmlUrl=" ++ [dquote]) key
    /\ forallb (not_char dquote) u = true
    /\ forallb (not_char gt_sign) b = true
    /\ g = Some u.
Proof.
  unfold outline_pattern; intros H.
  gen_cat H kw w1 G1 H1.
  apply (generates_litI (py "<outline")) in G1 as [Hkw ->].
  gen_cat H1 ws w2 G2 H2.
  inversion G2 as [| | | | | | | | |p x ws' ? Hx Hws| |]; subst.
  gen_cat H2 a w3 G3 H3. inversion G3; subst.
  gen_cat H3 key w4 G4 H4.
  apply (generates_litI (py "xmlUrl=" ++ [dquote])) in G4 as [Hkey ->].
  gen_cat H4 u w5 G5 H5.
  inversion G5 as [| | | | | | | | | |? ? ? ? G5'|]; subst.
  inversion G5'; subst.
  gen_cat H5 q w6 G6 H6. inversion G6; subst.
  gen_cat H6 b w7 G7 H7. inversion G7; subst. inversion H7; subst.
  exists kw, (x :: ws'), a, key, u, b. repeat split; auto.
  - discriminate.
  - cbn. now rewrite Hx.
Qed.



(** ** The attribute search finds the first occurrence *)

Lemma match_at_attr name s :
  match_at (attr_pattern name) s
  = if startswith (name ++ py "=" ++ [dquote]) s then
      match span (not_char dquote)
                 (skipn (length (name ++ py "=" ++ [dquote])) s) with
      | (v, _ :: r) => Some ((length s - length r)%nat, Some v)
      | (_, []) => None
      end
    else None.
Proof.
  unfold match_at, attr_pattern. cbn [run]. rewrite run_lit.
  destruct (startswith _ s); [|reflexivity].
  set (t := skipn _ s).
  rewrite rep_greedy_span.
  - destruct (span_spec (not_char dquote) t) as (Ht & _ & Hq).
    destruct (span (not_char dquote) t) as [v r]; cbn [fst snd] in *.
    destruct r as [|q r]; [reflexivity|].
    unfold not_char in Hq. apply negb_false_iff in Hq.
    cbn. rewrite Hq. do 3 f_equal.
    rewrite Ht at 1 2. rewrite length_app, Nat.add_sub, firstn_app.
    now rewrite Nat.sub_diag, firstn_all, app_nil_r.
  - intros c t' g' Hc. cbn. unfold not_char in Hc.
    apply negb_true_iff in Hc. now rewrite Hc.
Qed.

Lemma quotes_of_unquoted s :
  forallb (not_char dquote) s = true -> filter (N.eqb dquote) s = [].
Proof.
  induction s as [|x s IH]; cbn [forallb filter]; [auto|].
  intros H; apply andb_true_iff in H as [Hx Hs].
  unfold not_char in Hx. apply negb_true_iff in Hx.
  rewrite N.eqb_sym, Hx. auto.
Qed.

(** A match of an attribute pattern needs two quotes. *)
Lemma re_search_attr_one_quote name s :
  (length (filter (N.eqb dquote) s) <= 1)%nat ->
  re_search (attr_pattern name) s = None.
Proof.
  assert (Hmatch : forall t, (length (filter (N.eqb dquote) t) <= 1)%nat ->
                             match_at (attr_pattern name) t = None).
  { intros t Ht. rewrite match_at_attr.
    destruct (startswith _ t) eqn:Hk; [|reflexivity].
    apply startswith_spec in Hk.
    match goal with
    | |- context [span ?p ?x] =>
        destruct (span_spec p x) as (Hs & _ & Hq);
        destruct (span p x) as [v r]; cbn [fst snd] in *
    end.
    destruct r as [|q r]; [reflexivity|].
    unfold not_char in Hq. apply negb_false_iff, N.eqb_eq in Hq. subst q.
    rewrite Hk, Hs in Ht.
    rewrite !filter_app, !length_app in Ht.
    cbn [filter length] in Ht. rewrite N.eqb_refl in Ht.
    cbn [length] in Ht. lia. }
  induction s as [|c s IH]; intros Hs; cbn [re_search]; rewrite (Hmatch _ Hs);
    [reflexivity|].
  apply IH. cbn [filter] in Hs. destruct (dquote =? c); cbn [length] in Hs; lia.
Qed.

Lemma search_attr_first name text :
  forallb (not_char dquote) name = true ->
  search_attr name text = first_attr name text.
Proof.
  intros Hname. unfold search_attr, first_attr.
  induction text as [|c text IH].
  - cbn [re_search find]. rewrite match_at_attr.
    destruct (startswith _ []) eqn:Hk; [|reflexivity].
    apply startswith_spec in Hk. rewrite !length_app in Hk.
    destruct name; cbn in Hk; discriminate.
  - cbn [re_search find]. rewrite match_at_attr.
    destruct (startswith _ (c :: text)) eqn:Hk.
    + cbn [Nat.add].
      match goal with
      | |- context [span ?p ?x] =>
          destruct (span_spec p x) as (Ht & Hv & _);
          destruct (span p x) as [v r]; cbn [fst snd] in *
      end.
      destruct r as [|q r]; [|reflexivity].
      rewrite re_search_attr_one_quote; [reflexivity|].
      rewrite app_nil_r in Ht. apply startswith_spec in Hk.
      rewrite Ht in Hk.
      assert (Hc : (length (filter (N.eqb dquote) (c :: text)) <= 1)%nat).
      { rewrite Hk, !filter_app, !length_app.
        rewrite (quotes_of_unquoted _ Hname), (quotes_of_unquoted _ Hv).
        change (filter (N.eqb dquote) (py "=")) with (@nil N).
        cbn [filter length]. rewrite N.eqb_refl. cbn [length]. lia. }
      cbn [filter] in Hc. destruct (dquote =? c); cbn [length] in Hc; lia.
    + rewrite IH. destruct (find _ text) as [i|]; reflexivity.
Qed.



(** ** The pattern scan of a plainly written document *)



Lemma span_stop p v c t :
  forallb p v = true -> p c = false -> span p (v ++ c :: t) = (v, c :: t).
Proof.
  intros Hv Hc; induction v as [|x v IH]; cbn [app span forallb] in *.
  - now rewrite Hc.
  - apply andb_true_iff in Hv as [Hx Hv]. now rewrite Hx, (IH Hv).
Qed.








Lemma forallb_weaken {A} (p q : A -> bool) l :
  (forall x, p x = true -> q x = true) ->
  forallb p l = true -> forallb q l = true.
Proof.
  intros Hpq H. apply forallb_forall. intros x Hx.
  rewrite forallb_forall in H. auto.
Qed.





















Section Converter.

Variable env : Env.

(** ** The loops append what their bodies emit *)

Lemma primary_step_appends category outline st :
  primary_step env category outline st
  = (Ok tt, mkState (feeds st ++ primary_emit env category outline) (log st)).
Proof.
  unfold primary_emit, records_of, primary_step.
  destruct (get outline (py "xmlUrl")) as [[|c u]|]; cbn;
    rewrite ?app_nil_r; destruct st; reflexivity.
Qed.

Lemma fallback_step_appends category m st :
  fallback_step env category m st
  = (Ok tt, mkState (feeds st ++ fallback_emit env category m) (log st)).
Proof.
  unfold fallback_emit, records_of, fallback_step.
  destruct (group1 m) as [[|c u]|]; cbn;
    rewrite ?app_nil_r; destruct st; reflexivity.
Qed.

Lemma for_each_appends {X} (body : X -> M unit) (emitted : X -> list Feed) :
  (forall x st, body x st
                = (Ok tt, mkState (feeds st ++ emitted x) (log st))) ->
  forall xs st,
    for_each xs body st
    = (Ok tt, mkState (feeds st ++ flat_map emitted xs) (log st)).
Proof.
  intros Hbody xs; induction xs as [|x xs IH]; intros st; cbn.
  - rewrite app_nil_r; destruct st; reflexivity.
  - unfold bind. rewrite Hbody, IH. cbn. now rewrite app_assoc.
Qed.

(** ** The ways a call can go *)

Lemma fallback_body_read file_path content st :
  read_text env file_path = Ok content ->
  parse_opml_file_fallback env file_path st
  = (Ok (feeds st ++ scan_records env (stem env file_path) content),
     mkState (feeds st ++ scan_records env (stem env file_path) content)
             (log st ++ [Opened file_path])).
Proof.
  intros Hread.
  unfold parse_opml_file_fallback. exec. rewrite Hread. exec.
  rewrite (for_each_appends _ _ (fallback_step_appends (stem env file_path))).
  reflexivity.
Qed.

Lemma fallback_body_unreadable file_path e st :
  read_text env file_path = Raise e ->
  parse_opml_file_fallback env file_path st
  = (Ok (feeds st),
     mkState (feeds st)
       (log st ++
        [Opened file_path;
         Printed (py "Fallback parsing failed for " ++ file_path ++ py ": "
                  ++ exn_str e)])).
Proof.
  intros Hread.
  unfold parse_opml_file_fallback. exec. rewrite Hread. exec.
  now rewrite <- app_assoc.
Qed.

Lemma run_fallback_read file_path content :
  read_text env file_path = Ok content ->
  run_fallback env file_path
  = (Ok (scan_records env (stem env file_path) content), [Opened file_path]).
Proof.
  intros Hread. unfold run_fallback, call.
  now rewrite (fallback_body_read _ _ Hread).
Qed.

Lemma run_fallback_unreadable file_path e :
  read_text env file_path = Raise e ->
  run_fallback env file_path
  = (Ok [],
     [Opened file_path;
      Printed (py "Fallback parsing failed for " ++ file_path ++ py ": "
               ++ exn_str e)]).
Proof.
  intros Hread. unfold run_fallback, call.
  now rewrite (fallback_body_unreadable _ _ Hread).
Qed.

Lemma run_parse_parsed file_path content root :
  read_text env file_path = Ok content ->
  fromstring env (fix_xml_encoding content) = Ok root ->
  run_parse env file_path
  = (Ok (tree_records env (stem env file_path) root), [Opened file_path]).
Proof.
  intros Hread Hparse.
  unfold run_parse, call, parse_opml_file. exec.
  rewrite Hread. exec. rewrite Hparse. exec.
  rewrite (for_each_appends _ _ (primary_step_appends (stem env file_path))).
  reflexivity.
Qed.

Lemma run_parse_malformed file_path content msg :
  read_text env file_path = Ok content ->
  fromstring env (fix_xml_encoding content) = Raise (ParseError msg) ->
  run_parse env file_path
  = (Ok (scan_records env (stem env file_path) content),
     [Opened file_path;
      Printed (py "Error parsing " ++ file_path ++ py ": " ++ msg);
      Opened file_path]).
Proof.
  intros Hread Hparse.
  unfold run_parse, parse_opml_file. unfold call at 1. exec.
  rewrite Hread. exec. rewrite Hparse. exec.
  unfold call. rewrite (fallback_body_read _ _ Hread).
  reflexivity.
Qed.

Lemma run_parse_other_error file_path msg :
  read_text env file_path = Raise (OtherError msg)
  \/ (exists content,
        read_text env file_path = Ok content /\
        fromstring env (fix_xml_encoding content) = Raise (OtherError msg)) ->
  run_parse env file_path
  = (Ok [],
     [Opened file_path;
      Printed (py "Error processing " ++ file_path ++ py ": " ++ msg)]).
Proof.
  intros [Hread | [content [Hread Hparse]]];
    unfold run_parse, call, parse_opml_file; exec;
    rewrite Hread; exec; [|rewrite Hparse; exec]; reflexivity.
Qed.

Lemma run_parse_unreadable_as_malformed file_path msg :
  read_text env file_path = Raise (ParseError msg) ->
  run_parse env file_path
  = (Ok [],
     [Opened file_path;
      Printed (py "Error parsing " ++ file_path ++ py ": " ++ msg);
      Opened file_path;
      Printed (py "Fallback parsing failed for " ++ file_path ++ py ": "
               ++ msg)]).
Proof.
  intros Hread.
  unfold run_parse, parse_opml_file. unfold call at 1. exec.
  rewrite Hread. exec.
  unfold call. rewrite (fallback_body_unreadable _ _ Hread).
  reflexivity.
Qed.

(** ** Which text the fallback scans *)


(** ** No exception leaves [parse_opml_file] *)


(** ** An error other than ParseError *)


(** ** What one outline and one match emit *)

Lemma primary_emit_inv cat outline f :
  In f (primary_emit env cat outline) ->
  get outline (py "xmlUrl") = Some (url f) /\ url f <> []
  /\ title f = clean env (chosen_title (get outline (py "text"))
                                        (get outline (py "title")))
  /\ description f = clean env (get_default outline (py "description") [])
  /\ type f = chosen_type (get outline (py "type"))
  /\ category f = cat.
Proof.
  unfold primary_emit, records_of, primary_step.
  destruct (get outline (py "xmlUrl")) as [[|c u]|]; cbn [append ret snd feeds];
    try contradiction.
  intros [<-|[]]; cbn [url title description type category app].
  repeat split; discriminate.
Qed.

Lemma fallback_emit_inv cat m f :
  In f (fallback_emit env cat m) ->
  group1 m = Some (url f) /\ url f <> []
  /\ title f = clean env (chosen_title (search_attr (py "text") (group0 m))
                                        (search_attr (py "title") (group0 m)))
  /\ description f = clean env (fallback_description (group0 m))
  /\ type f = chosen_type (search_attr (py "type") (group0 m))
  /\ category f = cat.
Proof.
  unfold fallback_emit, records_of, fallback_step.
  destruct (group1 m) as [[|c u]|]; cbn [append ret snd feeds];
    try contradiction.
  intros [<-|[]]; cbn [url title description type category app].
  repeat split; try discriminate.
  unfold fallback_title, chosen_title.
  destruct (search_attr (py "text") (group0 m)) as [[|? ?]|]; reflexivity.
Qed.

Lemma returned_cases file_path :
  (exists content root,
      read_text env file_path = Ok content
      /\ fromstring env (fix_xml_encoding content) = Ok root
      /\ returned (run_parse env file_path)
         = tree_records env (stem env file_path) root)
  \/ (exists content msg,
      read_text env file_path = Ok content
      /\ fromstring env (fix_xml_encoding content) = Raise (ParseError msg)
      /\ returned (run_parse env file_path)
         = scan_records env (stem env file_path) content)
  \/ returned (run_parse env file_path) = [].
Proof.
  destruct (read_text env file_path) as [content|[msg|msg]] eqn:Hread.
  - destruct (fromstring env (fix_xml_encoding content)) as [root|[msg|msg]]
      eqn:Hparse.
    + left. exists content, root. repeat split; auto.
      now rewrite (run_parse_parsed _ Hread Hparse).
    + right; left. exists content, msg. repeat split; auto.
      now rewrite (run_parse_malformed _ Hread Hparse).
    + right; right. rewrite (run_parse_other_error file_path (msg := msg));
        [reflexivity|right; eauto].
  - right; right. now rewrite (run_parse_unreadable_as_malformed _ Hread).
  - right; right. rewrite (run_parse_other_error file_path (msg := msg));
      [reflexivity|now left].
Qed.

Lemma returned_fallback_cases file_path :
  (exists content,
      read_text env file_path = Ok content
      /\ returned (run_fallback env file_path)
         = scan_records env (stem env file_path) content)
  \/ returned (run_fallback env file_path) = [].
Proof.
  destruct (read_text env file_path) as [content|e] eqn:Hread.
  - left. exists content. split; auto. now rewrite (run_fallback_read _ Hread).
  - right. now rewrite (run_fallback_unreadable _ Hread).
Qed.

Lemma tree_records_inv category root f :
  In f (tree_records env category root) ->
  exists outline,
    In outline (findall_descendants (py "outline") root)
    /\ In f (primary_emit env category outline).
Proof. unfold tree_records. rewrite in_flat_map. auto. Qed.

Lemma scan_records_inv category text f :
  In f (scan_records env category text) ->
  exists m,
    In m (re_finditer outline_pattern text)
    /\ In f (fallback_emit env category m).
Proof. unfold scan_records. rewrite in_flat_map. auto. Qed.


(** ** A record needs a URL *)


(** ** The order of the records *)


(** ** The title *)

(** C8, as amended: in both paths the emitted title is the HTML-unescaped
    value of the text attribute if that attribute is present and
    non-empty, otherwise of the title attribute if present, otherwise
    the empty string; unescaping leaves a value without ampersand as it
    is.  In the fallback path the text and title attributes are what
    the attribute patterns find in the matched tag: the quoted value
    after the first [text=] (or [title=]) followed by a quote. *)
Theorem C8_title_choice category f :
  (forall outline,
      In f (primary_emit env category outline) ->
      title f = clean env (chosen_title (get outline (py "text"))
                                        (get outline (py "title"))))
  /\ (forall m,
      In f (fallback_emit env category m) ->
      title f = clean env (chosen_title (first_attr (py "text") (group0 m))
                                        (first_attr (py "title") (group0 m))))
  /\ (forall t, contains_char amp t = false -> clean env t = t).
Proof.
  split; [|split].
  - intros outline H. now apply primary_emit_inv in H.
  - intros m H. apply fallback_emit_inv in H as (_ & _ & H & _).
    now rewrite !search_attr_first in H by reflexivity.
  - intros t Ht. destruct t as [|c t]; [reflexivity|].
    unfold clean, html_unescape. now rewrite Ht.
Qed.

(** ** The type *)


(** ** The fallback against the tree walk *)



End Converter.

(** ** Witnesses and counterexamples *)






Lemma C8_title_choice_witness :
  title named_feed = py "Fallback Name"
  /\ title named_feed
     = clean named_env
         (chosen_title (first_attr (py "text") (group0 named_match))
                       (first_attr (py "title") (group0 named_match)))
  /\ clean named_env (py "Fallback Name") = py "Fallback Name".
Proof.
  split; [reflexivity|]. split.
  - apply (proj1 (proj2 (@C8_title_choice named_env (py "misc") named_feed))
             named_match).
    vm_compute. left. reflexivity.
  - apply (proj2 (proj2 (@C8_title_choice named_env (py "misc") named_feed))).
    reflexivity.
Defined.

(** C8 as stated fails: the text attribute of the only outline of
    [att_content] is not empty, and the title emitted is not that
    attribute but its unescaped value. *)
Lemma C8_counterexample :
  fromstring att_env (fix_xml_encoding att_content)
  = Ok (Elem (py "opml") [] [Elem (py "body") [] [att_outline]])
  /\ get att_outline (py "text") = Some (py "AT&amp;T")
  /\ map title (returned (run_parse att_env (py "feeds/biz.opml")))
     = [py "AT&T"]
  /\ py "AT&T" <> py "AT&amp;T".
Proof.
  repeat split; try (vm_compute; reflexivity).
  intros H; vm_compute in H; discriminate H.
Qed.




(** ** The scenarios of the specification *)

Example scenario_1 :
  run_parse tech_env (py "feeds/news.opml")
  = (Ok [tech_feed], [Opened (py "feeds/news.opml")]).
Proof. vm_compute. reflexivity. Qed.

Example scenario_2 :
  fix_xml_encoding qa_content
  = py "<opml><body><outline text=" ++ dq (py "Q&amp;A Weekly")
    ++ py " xmlUrl=" ++ dq (py "http://q.com/feed") ++ py "/></body></opml>"
  /\ map title (returned (run_parse (one_file (py "qa.opml") qa_content)
                                    (py "qa.opml")))
     = [py "Q&A Weekly"].
Proof. split; vm_compute; reflexivity. Qed.

Example scenario_3 :
  map url (returned (run_parse broken_env broken_path))
  = [py "http://b.com/feed?a=1&b=2"]
  /\ fallback_attempted (snd (run_parse broken_env broken_path)).
Proof. split; [vm_compute; reflexivity|]. unfold fallback_attempted. vm_compute. lia. Qed.

Example scenario_4 :
  returned (run_parse (one_file (py "e.opml") empty_url_content) (py "e.opml"))
  = []
  /\ returned (run_fallback (one_file (py "e.opml") empty_url_content)
                            (py "e.opml"))
     = [].
Proof. split; vm_compute; reflexivity. Qed.

Example scenario_5 :
  returned (run_parse named_env (py "feeds/misc.opml")) = [named_feed]
  /\ returned (run_fallback named_env (py "feeds/misc.opml")) = [named_feed]
  /\ re_finditer outline_pattern named_content = [named_match].
Proof. repeat split; vm_compute; reflexivity. Qed.

Example tech_tree_rendered : render tech_tree = tech_content.
Proof. vm_compute. reflexivity. Qed.


(** * Further properties *)

(** ** Normalization *)

(** X1: in the text [fix_xml_encoding] returns, every ampersand starts
    one of the entity references the pattern recognizes, and none of
    the code points that the replacements remove is left. *)
Theorem X1_normalized_text s :
  amps_ok (fix_xml_encoding s) = true
  /\ forallb (fun c => negb (is_special c)) (fix_xml_encoding s) = true.
Proof. apply fix_xml_encoding_normal. Qed.

(** X2: [fix_xml_encoding] leaves a text unchanged exactly when every
    ampersand of the text already starts a recognized entity reference
    and the text holds none of the replaced code points. *)
Theorem X2_normalization_fixed_points s :
  fix_xml_encoding s = s
  <-> amps_ok s = true /\ forallb (fun c => negb (is_special c)) s = true.
Proof.
  split.
  - intros H. rewrite <- H. apply fix_xml_encoding_normal.
  - intros [Ha Hs]. now apply fix_xml_encoding_fixed.
Qed.

Lemma escape_amp_length s : (length s <= length (escape_amp s))%nat.
Proof.
  induction s as [|c s IH]; cbn [escape_amp length]; [lia|].
  destruct ((c =? amp) && negb (entity_ahead s)).
  - rewrite length_app. change (length (py "&amp;")) with 5%nat. lia.
  - cbn [length]. lia.
Qed.

Lemma typography_length c : (1 <= length (typography c))%nat.
Proof.
  destruct (is_special c) eqn:E.
  - apply special_cases in E.
    repeat (destruct E as [<-|E]; [vm_compute; lia|]). contradiction.
  - rewrite (typography_unspecial _ E). cbn. lia.
Qed.

Lemma flat_map_typography_length s :
  (length s <= length (flat_map typography s))%nat.
Proof.
  induction s as [|c s IH]; cbn [flat_map length]; [lia|].
  rewrite length_app. pose proof (typography_length c). lia.
Qed.

(** X3: normalization never shortens a text. *)
Theorem X3_normalization_never_shortens s :
  (length s <= length (fix_xml_encoding s))%nat.
Proof.
  rewrite fix_xml_encoding_steps, (nbsp_fixed _ (amps_ok_escape s)).
  pose proof (escape_amp_length s).
  pose proof (flat_map_typography_length (escape_amp s)). lia.
Qed.

(** ** The records of one document *)

(** X4: every record returned for a document carries the stem of the
    file name as its category, whichever path produced it. *)
Theorem X4_category_is_stem env file_path f :
  In f (returned (run_parse env file_path))
  \/ In f (returned (run_fallback env file_path)) ->
  category f = stem env file_path.
Proof.
  intros [H|H].
  - destruct (returned_cases env file_path)
      as [(c & root & _ & _ & E)|[(c & msg & _ & _ & E)|E]];
      rewrite E in H.
    + apply tree_records_inv in H as (o & _ & H).
      now apply primary_emit_inv in H.
    + apply scan_records_inv in H as (m & _ & H).
      now apply fallback_emit_inv in H.
    + contradiction.
  - destruct (returned_fallback_cases env file_path) as [(c & _ & E)|E];
      rewrite E in H.
    + apply scan_records_inv in H as (m & _ & H).
      now apply fallback_emit_inv in H.
    + contradiction.
Qed.

Lemma X4_category_is_stem_witness : category tech_feed = py "news".
Proof.
  apply (@X4_category_is_stem tech_env (py "feeds/news.opml") tech_feed).
  left. vm_compute. left. reflexivity.
Defined.







(** X7: a url the pattern scan returns holds no double quote. *)
Theorem X7_scanned_url_unquoted env category text f :
  In f (scan_records env category text) ->
  forallb (not_char dquote) (url f) = true.
Proof.
  intros H. apply scan_records_inv in H as (m & Hm & H).
  apply fallback_emit_inv in H as (Hu & _).
  destruct (finditer_sound _ _ _ Hm) as (_ & _ & _ & G).
  apply outline_pattern_shape in G
    as (kw & ws & a & key & u & b & _ & _ & _ & _ & _ & _ & Hq & _ & Hg).
  rewrite Hu in Hg. injection Hg as ->. exact Hq.
Qed.

Lemma X7_scanned_url_unquoted_witness :
  forallb (not_char dquote) (url tech_feed) = true.
Proof.
  apply (@X7_scanned_url_unquoted tech_env (py "news") tech_content tech_feed).
  vm_compute. left. reflexivity.
Defined.

(** X8: in both paths the description of a record is the unescaped
    description attribute, and empty when the attribute is absent; the
    fallback reads the attribute as the quoted value after the first
    [description=] followed by a quote in the matched tag. *)
Theorem X8_description env category f :
  (forall outline,
      In f (primary_emit env category outline) ->
      description f
      = clean env (chosen_description (get outline (py "description"))))
  /\ (forall m,
      In f (fallback_emit env category m) ->
      description f
      = clean env (chosen_description
                     (first_attr (py "description") (group0 m)))).
Proof.
  split.
  - intros outline H. now apply primary_emit_inv in H.
  - intros m H. apply fallback_emit_inv in H as (_ & _ & _ & H & _).
    unfold fallback_description in H.
    now rewrite search_attr_first in H by reflexivity.
Qed.

Lemma X8_description_witness :
  description named_feed
  = clean named_env (chosen_description (get named_outline (py "description"))).
Proof.
  apply (proj1 (@X8_description named_env (py "misc") named_feed) named_outline).
  vm_compute. left. reflexivity.
Defined.

(** ** The conversion *)

Create HintDb framed.

Lemma framed_ret A (a : A) : log_framed (ret a).
Proof. intros fs l. cbn. now rewrite app_nil_r. Qed.

Lemma framed_lift A (r : result A) : log_framed (lift r).
Proof. intros fs l. cbn. now rewrite app_nil_r. Qed.

Lemma framed_emit e : log_framed (emit e).
Proof. intros fs l. reflexivity. Qed.

Lemma framed_print line : log_framed (print line).
Proof. apply framed_emit. Qed.

Lemma framed_append f : log_framed (append f).
Proof. intros fs l. cbn. now rewrite app_nil_r. Qed.

Lemma framed_extend fs' : log_framed (extend fs').
Proof. intros fs l. cbn. now rewrite app_nil_r. Qed.

Lemma framed_return_feeds : log_framed return_feeds.
Proof. intros fs l. cbn. now rewrite app_nil_r. Qed.

Lemma framed_bind A B (m : M A) (f : A -> M B) :
  log_framed m -> (forall a, log_framed (f a)) -> log_framed (bind m f).
Proof.
  intros Hm Hf fs l. unfold bind. rewrite (Hm fs l).
  destruct (m (mkState fs [])) as [[a|e] [fs' l']]; cbn [fst snd feeds log].
  - rewrite (Hf a fs' (l ++ l')), (Hf a fs' l').
    cbn [fst snd feeds log]. now rewrite app_assoc.
  - reflexivity.
Qed.

Lemma framed_try_except body handler :
  log_framed body -> (forall e, log_framed (handler e)) ->
  log_framed (try_except body handler).
Proof.
  intros Hm Hf fs l. unfold try_except. rewrite (Hm fs l).
  destruct (body (mkState fs [])) as [[a|e] [fs' l']]; cbn [fst snd feeds log].
  - reflexivity.
  - rewrite (Hf e fs' (l ++ l')), (Hf e fs' l').
    cbn [fst snd feeds log]. now rewrite app_assoc.
Qed.

Lemma framed_for_each X (xs : list X) body :
  (forall x, log_framed (body x)) -> log_framed (for_each xs body).
Proof.
  intros H. induction xs as [|x xs IH]; cbn [for_each].
  - apply framed_ret.
  - apply framed_bind; auto.
Qed.

Lemma framed_call A (m : M A) : log_framed m -> log_framed (call m).
Proof.
  intros Hm fs l. unfold call. cbn [log feeds].
  rewrite (Hm [] l).
  destruct (m (mkState [] [])) as [r [fs' l']]. cbn [fst snd feeds log].
  reflexivity.
Qed.

#[local] Hint Resolve framed_ret framed_lift framed_emit framed_print
  framed_append framed_extend framed_return_feeds framed_bind
  framed_try_except framed_for_each framed_call : framed.

Lemma framed_fallback env file_path :
  log_framed (parse_opml_file_fallback env file_path).
Proof.
  unfold parse_opml_file_fallback, read_file.
  repeat (apply framed_bind || apply framed_try_except
          || apply framed_for_each || intros);
    auto with framed.
  unfold fallback_step. destruct (group1 _) as [[|]|]; auto with framed.
Qed.

Lemma framed_parse env file_path : log_framed (parse_opml_file env file_path).
Proof.
  unfold parse_opml_file, read_file.
  apply framed_bind; [|auto with framed].
  apply framed_try_except.
  - repeat (apply framed_bind || apply framed_for_each || intros);
      auto with framed.
    unfold primary_step. destruct (get _ _) as [[|]|]; auto with framed.
  - intros [msg|msg]; auto with framed.
    apply framed_bind; [auto with framed|intros _].
    apply framed_try_except; [|auto with framed].
    apply framed_bind; [|auto with framed].
    apply framed_call, framed_fallback.
Qed.

Lemma run_parse_ok env file_path :
  fst (run_parse env file_path) = Ok (returned (run_parse env file_path)).
Proof.
  destruct (read_text env file_path) as [content|[msg|msg]] eqn:Hread.
  - destruct (fromstring env (fix_xml_encoding content)) as [root|[msg|msg]]
      eqn:Hparse.
    + now rewrite (run_parse_parsed _ _ Hread Hparse).
    + now rewrite (run_parse_malformed _ _ Hread Hparse).
    + rewrite (run_parse_other_error env file_path (msg := msg));
        [reflexivity|right; eauto].
  - now rewrite (run_parse_unreadable_as_malformed _ _ Hread).
  - rewrite (run_parse_other_error env file_path (msg := msg));
      [reflexivity|now left].
Qed.

(** A call of [parse_opml_file] in the middle of a run: the caller's
    list is untouched, the result is that of a call from outside. *)
Lemma call_parse env file_path fs l :
  exists l',
    call (parse_opml_file env file_path) (mkState fs l)
    = (Ok (returned (run_parse env file_path)), mkState fs l').
Proof.
  pose proof (run_parse_ok env file_path) as Hok.
  unfold run_parse in *. unfold call in *. cbn [feeds log] in *.
  rewrite (framed_parse env file_path [] l).
  destruct (parse_opml_file env file_path (mkState [] [])) as [r [fs' l']].
  cbn [fst snd feeds log] in *. rewrite Hok. eauto.
Qed.

Lemma collect_step d p fs l :
  exists l',
    (print (py "Processing: " ++ basename p) ;;;
     feeds <- call (parse_opml_file (files d) p) ;;
     extend feeds ;;;
     print (py "  Extracted " ++ count feeds ++ py " feeds")) (mkState fs l)
    = (Ok tt, mkState (fs ++ returned (run_parse (files d) p)) l').
Proof.
  unfold bind, print, emit. cbn [feeds log].
  destruct (call_parse (files d) p fs
              (l ++ [Printed (py "Processing: " ++ basename p)])) as [l1 ->].
  unfold extend. cbn [feeds log]. eexists; reflexivity.
Qed.

Lemma collect_run d opml_files : forall fs l,
  exists l',
    collect d opml_files (mkState fs l)
    = (Ok tt,
       mkState (fs ++ flat_map (fun p => returned (run_parse (files d) p))
                               opml_files) l').
Proof.
  unfold collect.
  induction opml_files as [|p ps IH]; intros fs l; cbn [for_each flat_map].
  - rewrite app_nil_r. eexists; reflexivity.
  - destruct (collect_step d p fs l) as [l1 Hstep].
    unfold bind at 1. rewrite Hstep.
    destruct (IH (fs ++ returned (run_parse (files d) p)) l1) as [l2 ->].
    rewrite <- app_assoc. eexists; reflexivity.
Qed.

Lemma convert_run d opml_files :
  exists l,
    (print (py "Found " ++ count opml_files ++ py " OPML files") ;;;
     collect d opml_files ;;;
     return_feeds) (mkState [] [])
    = (Ok (flat_map (fun p => returned (run_parse (files d) p)) opml_files),
       mkState (flat_map (fun p => returned (run_parse (files d) p))
                         opml_files) l).
Proof.
  unfold bind at 1, print at 1, emit at 1. cbn [feeds log].
  unfold bind at 1.
  destruct (collect_run d opml_files []
              ([] ++ [Printed (py "Found " ++ count opml_files
                               ++ py " OPML files")])) as [l ->].
  unfold return_feeds. cbn [feeds app]. eexists; reflexivity.
Qed.

Lemma convert_outcome d input_dir output_file :
  written (convert_opml_to_csv d input_dir output_file)
  = match all_feeds_of d input_dir, open_w d output_file with
    | _ :: _, Ok _ =>
        Some (output_file, Csv.text_of (all_feeds_of d input_dir))
    | _, _ => None
    end
  /\ raised (convert_opml_to_csv d input_dir output_file)
     = match all_feeds_of d input_dir, open_w d output_file with
       | _ :: _, Raise e => Some e
       | _, _ => None
       end.
Proof.
  unfold convert_opml_to_csv, all_feeds_of.
  destruct (glob d (os_path_join input_dir (py "*.opml"))) as [|p ps] eqn:Hglob.
  - cbn. auto.
  - destruct (convert_run d (p :: ps)) as [l ->].
    destruct (flat_map _ (p :: ps)) as [|f fs]; cbn [written raised]; auto.
    destruct (open_w d output_file); cbn [written raised]; auto.
Qed.


(** ** [extract_domain] *)

Ltac char_cases :=
  repeat match goal with
    | H : context [N.leb ?a ?b] |- _ => destruct (N.leb_spec a b); cbn in H
    | H : context [N.ltb ?a ?b] |- _ => destruct (N.ltb_spec a b); cbn in H
    | H : context [N.eqb ?a ?b] |- _ => destruct (N.eqb_spec a b); cbn in H
    | |- context [N.leb ?a ?b] => destruct (N.leb_spec a b); cbn
    | |- context [N.ltb ?a ?b] => destruct (N.ltb_spec a b); cbn
    | |- context [N.eqb ?a ?b] => destruct (N.eqb_spec a b); cbn
    end;
  try discriminate; try reflexivity; try lia.

Lemma filter_all {A} (q : A -> bool) l :
  forallb q l = true -> filter q l = l.
Proof.
  induction l as [|x l IH]; cbn; [reflexivity|].
  intros H. apply andb_true_iff in H as [-> Hl]. now rewrite IH.
Qed.

Lemma firstn_length_app {A} (a b : list A) : firstn (length a) (a ++ b) = a.
Proof. induction a as [|x a IH]; cbn; [now destruct b|now rewrite IH]. Qed.

Lemma skipn_length_app {A} (a b : list A) : skipn (length a) (a ++ b) = b.
Proof. induction a as [|x a IH]; cbn; auto. Qed.

Lemma find_char_first c a b :
  forallb (not_char c) a = true -> find [c] (a ++ c :: b) = Some (length a).
Proof.
  induction a as [|x a IH]; cbn [app forallb length find startswith].
  - now rewrite N.eqb_refl.
  - intros H. apply andb_true_iff in H as [Hx Ha].
    unfold not_char in Hx. apply negb_true_iff in Hx. rewrite Hx. cbn.
    now rewrite (IH Ha).
Qed.

Lemma span_all p v rest :
  forallb p v = true ->
  match rest with
  | [] => True
  | c :: _ => p c = false
  end ->
  span p (v ++ rest) = (v, rest).
Proof.
  intros Hv Hrest. destruct rest as [|c t].
  - rewrite app_nil_r. clear Hrest.
    induction v as [|x v IH]; cbn [span forallb] in *; [reflexivity|].
    apply andb_true_iff in Hv as [Hx Hv]. now rewrite Hx, (IH Hv).
  - now apply span_stop.
Qed.

Lemma scheme_char_facts c :
  Poster.scheme_char c = true ->
  Poster.is_unsafe c = false /\ not_char 58 c = true.
Proof.
  unfold Poster.scheme_char, Poster.is_unsafe, not_char, is_ascii_letter,
    is_ascii_digit.
  intros H. split; char_cases.
Qed.

Lemma letter_facts c :
  is_ascii_letter c = true ->
  Poster.is_c0_or_space c = false /\ Poster.scheme_char c = true.
Proof.
  unfold Poster.scheme_char, Poster.is_c0_or_space, is_ascii_letter.
  intros H. split; [char_cases|]. now rewrite H.
Qed.

Lemma host_char_facts c :
  host_char c = true ->
  Poster.is_unsafe c = false /\ Poster.netloc_delim c = false
  /\ Poster.is_ascii c = true /\ (91 =? c) = false /\ (93 =? c) = false.
Proof.
  unfold host_char. intros H.
  do 4 (apply andb_true_iff in H as [H ?]).
  repeat match goal with
         | H : negb _ = true |- _ => apply negb_true_iff in H
         end.
  repeat split; auto; rewrite N.eqb_sym; assumption.
Qed.

Lemma netloc_of_plain_url chk c scheme host rest :
  is_ascii_letter c = true ->
  forallb Poster.scheme_char scheme = true ->
  forallb host_char host = true ->
  path_like rest ->
  Poster.netloc chk ((c :: scheme) ++ py "://" ++ host ++ rest)
  = Poster.Done host.
Proof.
  intros Hc Hscheme Hhost Hrest.
  destruct (letter_facts _ Hc) as [Hc0 Hcs].
  destruct (scheme_char_facts _ Hcs) as [Hcu Hccolon].
  assert (Hsu : forallb (fun x => negb (Poster.is_unsafe x)) scheme = true).
  { revert Hscheme. apply forallb_weaken. intros x Hx.
    now destruct (scheme_char_facts _ Hx) as [-> _]. }
  assert (Hscolon : forallb (not_char 58) scheme = true).
  { revert Hscheme. apply forallb_weaken. intros x Hx.
    now destruct (scheme_char_facts _ Hx). }
  assert (Hhu : forallb (fun x => negb (Poster.is_unsafe x)) host = true).
  { revert Hhost. apply forallb_weaken. intros x Hx.
    now destruct (host_char_facts _ Hx) as [-> _]. }
  assert (Hhd : forallb (fun x => negb (Poster.netloc_delim x)) host = true).
  { revert Hhost. apply forallb_weaken. intros x Hx.
    now destruct (host_char_facts _ Hx) as (_ & -> & _). }
  assert (Hha : forallb Poster.is_ascii host = true).
  { revert Hhost. apply forallb_weaken. intros x Hx.
    now destruct (host_char_facts _ Hx) as (_ & _ & -> & _). }
  assert (Hopen : contains_char 91 host = false).
  { unfold contains_char. apply not_true_is_false. intros H.
    apply existsb_exists in H as (x & Hx & Hx').
    rewrite forallb_forall in Hhost.
    destruct (host_char_facts _ (Hhost x Hx)) as (_ & _ & _ & E & _).
    congruence. }
  assert (Hclose : contains_char 93 host = false).
  { unfold contains_char. apply not_true_is_false. intros H.
    apply existsb_exists in H as (x & Hx & Hx').
    rewrite forallb_forall in Hhost.
    destruct (host_char_facts _ (Hhost x Hx)) as (_ & _ & _ & _ & E).
    congruence. }
  set (rest' := filter (fun x => negb (Poster.is_unsafe x)) rest).
  assert (Hrest' : match rest' with
                   | [] => True
                   | x :: _ => negb (Poster.netloc_delim x) = false
                   end).
  { subst rest'. destruct rest as [|x rest]; cbn in *; [exact I|].
    assert (Hxu : Poster.is_unsafe x = false).
    { unfold Poster.netloc_delim, Poster.is_unsafe in *. char_cases. }
    rewrite Hxu. cbn. now rewrite Hrest. }
  assert (Hclean :
    filter (fun x => negb (Poster.is_unsafe x))
           (c :: scheme ++ 58 :: py "//" ++ host ++ rest)
    = c :: scheme ++ 58 :: py "//" ++ host ++ rest').
  { cbn [filter]. rewrite Hcu. cbn [negb].
    rewrite filter_app, (filter_all _ _ Hsu). cbn [filter].
    change (Poster.is_unsafe 58) with false. cbn [negb].
    rewrite filter_app.
    change (filter (fun x : N => negb (Poster.is_unsafe x)) (py "//"))
      with (py "//").
    rewrite filter_app, (filter_all _ _ Hhu). reflexivity. }
  unfold Poster.netloc.
  change (py "://") with (58 :: py "//").
  cbn [app Poster.lstrip]. rewrite Hc0, Hclean.
  assert (Hafter :
    Poster.after_scheme (c :: scheme ++ 58 :: py "//" ++ host ++ rest')
    = py "//" ++ host ++ rest').
  { unfold Poster.after_scheme. change (py ":") with [58].
    change (c :: scheme ++ 58 :: py "//" ++ host ++ rest')
      with ((c :: scheme) ++ 58 :: py "//" ++ host ++ rest').
    rewrite (find_char_first 58 (c :: scheme) (py "//" ++ host ++ rest'))
      by (cbn [forallb]; now rewrite Hccolon).
    change (length (c :: scheme)) with (S (length scheme)).
    cbn [app].
    change (firstn (S (length scheme))
              (c :: scheme ++ 58 :: py "//" ++ host ++ rest'))
      with (c :: firstn (length scheme)
                   (scheme ++ 58 :: py "//" ++ host ++ rest')).
    rewrite firstn_length_app.
    cbn [forallb]. rewrite Hc, Hcs, Hscheme. cbn [andb].
    change (skipn (S (S (length scheme)))
              (c :: scheme ++ 58 :: py "//" ++ host ++ rest'))
      with (skipn (S (length scheme))
                  (scheme ++ 58 :: py "//" ++ host ++ rest')).
    change (S (length scheme)) with (1 + length scheme)%nat.
    rewrite <- skipn_skipn, skipn_length_app. reflexivity. }
  rewrite Hafter. rewrite startswith_app.
  unfold Poster.splitnetloc.
  change (skipn 2 (py "//" ++ host ++ rest')) with (host ++ rest').
  rewrite (span_all _ _ _ Hhd Hrest'). cbn [fst].
  rewrite Hopen, Hclose. cbn [andb orb negb].
  destruct host as [|x host]; [reflexivity|]. now rewrite Hha.
Qed.

(** X10.  For a URL made of a scheme (an ASCII letter, then letters,
    digits, plus, minus, dot), a colon and two slashes, a host of ASCII
    characters with no slash, question mark, hash, bracket, tab, CR or
    LF, and then nothing or something that begins with a slash, question
    mark or hash, [extract_domain] returns the host without one leading
    www. (in lower case), and the host itself otherwise; a port or user
    name written in the host stays in it. *)
Theorem X10_domain_of_plain_url chk c scheme host rest :
  is_ascii_letter c = true ->
  forallb Poster.scheme_char scheme = true ->
  forallb host_char host = true ->
  path_like rest ->
  Poster.extract_domain chk ((c :: scheme) ++ py "://" ++ host ++ rest)
  = if startswith (py "www.") host then skipn 4 host else host.
Proof.
  intros Hc Hscheme Hhost Hrest. unfold Poster.extract_domain.
  now rewrite (netloc_of_plain_url chk c scheme host rest).
Qed.

Lemma X10_domain_of_plain_url_witness :
  Poster.extract_domain (Poster.mkChecks (fun _ => None) (fun _ => None))
    (py "https://www.example.com:8080/feed.xml")
  = py "example.com:8080".
Proof.
  apply (X10_domain_of_plain_url
           (Poster.mkChecks (fun _ => None) (fun _ => None))
           104 (py "ttps") (py "www.example.com:8080") (py "/feed.xml"));
    vm_compute; reflexivity.
Defined.

Lemma lstrip_suffix p s : exists pre, s = pre ++ Poster.lstrip p s.
Proof.
  induction s as [|c s [pre IH]]; cbn; [now exists []|].
  destruct (p c).
  - exists (c :: pre). cbn. now f_equal.
  - now exists [].
Qed.

Lemma after_scheme_suffix u : exists pre, u = pre ++ Poster.after_scheme u.
Proof.
  unfold Poster.after_scheme.
  destruct (find (py ":") u) as [[|i]|]; try (now exists []).
  destruct u as [|c u']; [now exists []|].
  destruct (_ && _); [|now exists []].
  exists (firstn (S (S i)) (c :: u')). now rewrite firstn_skipn.
Qed.

Lemma find_none_suffix k pre : forall u,
  find k (pre ++ u) = None -> startswith k u = false.
Proof.
  induction pre as [|x pre IH]; intros u H; cbn [app] in H.
  - destruct u as [|y u]; cbn [find] in H;
      destruct (startswith k _); [discriminate|reflexivity
                                 |discriminate|reflexivity].
  - cbn [find] in H. destruct (startswith k (x :: pre ++ u)); [discriminate|].
    apply IH. now destruct (find k (pre ++ u)).
Qed.

(** X11.  A URL in which, once tabs, CRs and LFs are removed, no two
    slashes follow each other has the empty domain: an address written
    without its scheme, such as www.example.com/feed, gives the empty
    string, not its host. *)
Theorem X11_no_double_slash_no_domain chk url :
  find (py "//") (filter (fun c => negb (Poster.is_unsafe c)) url) = None ->
  Poster.extract_domain chk url = [].
Proof.
  intros H. unfold Poster.extract_domain, Poster.netloc.
  destruct (lstrip_suffix Poster.is_c0_or_space url) as [pre Hpre].
  set (cleaned := filter _ (Poster.lstrip _ url)).
  destruct (after_scheme_suffix cleaned) as [pre' Hpre'].
  rewrite Hpre, filter_app in H. fold cleaned in H.
  rewrite Hpre', app_assoc in H.
  now rewrite (find_none_suffix _ _ _ H).
Qed.

Lemma X11_no_double_slash_no_domain_witness :
  Poster.extract_domain (Poster.mkChecks (fun _ => None) (fun _ => None))
    (py "www.example.com/feed")
  = [].
Proof.
  apply X11_no_double_slash_no_domain. vm_compute. reflexivity.
Defined.

Lemma forallb_skipn {A} (p : A -> bool) n : forall l,
  forallb p l = true -> forallb p (skipn n l) = true.
Proof.
  induction n as [|n IH]; intros [|x l] H; cbn in *; auto.
  apply andb_true_iff in H as [_ H]. auto.
Qed.

Lemma netloc_no_delimiter chk url d :
  Poster.netloc chk url = Poster.Done d ->
  forallb (fun c => negb (Poster.netloc_delim c)) d = true.
Proof.
  unfold Poster.netloc.
  set (u := Poster.after_scheme _).
  destruct (startswith (py "//") u); [|now intros [= <-]].
  pose proof (span_spec (fun c => negb (Poster.netloc_delim c)) (skipn 2 u))
    as (_ & Hall & _).
  unfold Poster.splitnetloc.
  set (n := fst (span _ (skipn 2 u))) in *.
  destruct (_ || _); [discriminate|].
  destruct (if _ && _ then _ else _); [discriminate|].
  destruct n as [|x n]; [now intros [= <-]|].
  destruct (forallb Poster.is_ascii (x :: n)); [now intros [= <-]|].
  destruct (Poster.check_nfkc chk (x :: n)); [discriminate|now intros [= <-]].
Qed.

(** X12.  When [urlparse] accepts the URL, the domain holds no slash,
    no question mark and no hash; when it raises, the URL comes back as
    it was given. *)
Theorem X12_domain_has_no_delimiter chk url :
  match Poster.netloc chk url with
  | Poster.Done _ =>
      forallb (fun c => negb (Poster.netloc_delim c))
              (Poster.extract_domain chk url) = true
  | Poster.Raised _ => Poster.extract_domain chk url = url
  end.
Proof.
  unfold Poster.extract_domain.
  destruct (Poster.netloc chk url) as [d|e] eqn:Hn; [|reflexivity].
  apply netloc_no_delimiter in Hn.
  destruct (startswith (py "www.") d); [now apply forallb_skipn|assumption].
Qed.

(** ** The CSV file: what is written is what is read *)

(** *** The reader, character by character *)

Lemma process_chars_app r a b :
  Csv.process_chars r (a ++ b)
  = match Csv.process_chars r a with
    | Csv.Parsed r' => Csv.process_chars r' b
    | Csv.Failed e => Csv.Failed e
    end.
Proof.
  revert r; induction a as [|c a IH]; intros r; cbn; [reflexivity|].
  destruct (Csv.parse_process_char r (Csv.Char c)); auto.
Qed.

Lemma records_failed r0 e s : forall cur,
  Csv.process_chars r0 cur = Csv.Failed e ->
  Csv.records r0 (Csv.lines_from cur s) = Csv.Failed e.
Proof.
  induction s as [|c s IH]; intros cur H; cbn [Csv.lines_from].
  - destruct cur as [|x cur]; [discriminate|].
    cbn [Csv.records]. unfold Csv.process_line. now rewrite H.
  - destruct (c =? 10).
    + cbn [Csv.records]. unfold Csv.process_line.
      now rewrite process_chars_app, H.
    + apply IH. now rewrite process_chars_app, H.
Qed.

Lemma records_stream s : forall cur r0 r,
  Csv.process_chars r0 cur = Csv.Parsed r ->
  Csv.records r0 (Csv.lines_from cur s)
  = stream r (negb (Poster.is_empty cur)) s.
Proof.
  induction s as [|c s IH]; intros cur r0 r H;
    cbn [Csv.lines_from stream].
  - destruct cur as [|x cur].
    + cbn in H. injection H as <-. reflexivity.
    + cbn [Poster.is_empty negb Csv.records]. unfold Csv.process_line.
      rewrite H. destruct (Csv.parse_process_char r Csv.EOL) as [r'|];
        [|reflexivity].
      destruct (Csv.state r'); reflexivity.
  - destruct (Csv.parse_process_char r (Csv.Char c)) as [r1|e] eqn:Hc.
    + assert (H1 : Csv.process_chars r0 (cur ++ [c]) = Csv.Parsed r1).
      { rewrite process_chars_app, H. cbn. now rewrite Hc. }
      destruct (c =? 10).
      * cbn [Csv.records]. unfold Csv.process_line. rewrite H1.
        destruct (Csv.parse_process_char r1 Csv.EOL) as [r2|]; [|reflexivity].
        destruct (Csv.state r2);
          try (apply (IH [] r2 r2); reflexivity).
        unfold then_records.
        now rewrite (IH [] Csv.reset Csv.reset eq_refl).
      * rewrite (IH (cur ++ [c]) r0 r1 H1). now destruct cur.
    + assert (H1 : Csv.process_chars r0 (cur ++ [c]) = Csv.Failed e).
      { rewrite process_chars_app, H. cbn. now rewrite Hc. }
      destruct (c =? 10).
      * cbn [Csv.records]. unfold Csv.process_line. now rewrite H1.
      * now apply records_failed.
Qed.

Lemma records_of_text s :
  Csv.records Csv.reset (Csv.lines s) = stream Csv.reset false s.
Proof. apply (@records_stream s [] Csv.reset Csv.reset eq_refl). Qed.

(** *** Newline translation of the written text *)

Lemma needs_quotes_false c :
  Csv.needs_quotes c = false ->
  (c =? 44) = false /\ (c =? dquote) = false
  /\ (c =? 13) = false /\ (c =? 10) = false.
Proof.
  unfold Csv.needs_quotes. intros H.
  do 3 (apply orb_false_iff in H as [H ?]). auto.
Qed.

Lemma translate_plain f : forall pending,
  existsb Csv.needs_quotes f = false ->
  forall c rest, (c =? 10) = false ->
  Csv.translate pending (f ++ c :: rest)
  = f ++ Csv.translate false (c :: rest).
Proof.
  induction f as [|x f IH]; intros pending Hf c rest Hc;
    cbn [app Csv.translate existsb] in *.
  - now rewrite Hc.
  - apply orb_false_iff in Hf as [Hx Hf].
    destruct (needs_quotes_false _ Hx) as (_ & _ & -> & ->).
    now rewrite <- (IH false Hf c rest Hc).
Qed.

Lemma translate_plain_id f : forall pending,
  existsb Csv.needs_quotes f = false -> Csv.translate pending f = f.
Proof.
  induction f as [|x f IH]; intros pending Hf;
    cbn [Csv.translate existsb] in *; [reflexivity|].
  apply orb_false_iff in Hf as [Hx Hf].
  destruct (needs_quotes_false _ Hx) as (_ & _ & -> & ->).
  now rewrite (IH false Hf).
Qed.

Lemma translate_doubled g : forall pending rest,
  Csv.translate pending (doubled g ++ dquote :: rest)
  = doubled (Csv.translate pending g) ++ dquote :: Csv.translate false rest.
Proof.
  unfold doubled.
  induction g as [|x g IH]; intros pending rest; [reflexivity|].
  cbn [flat_map]. destruct (N.eqb_spec x dquote) as [->|Hq].
  - cbn [app Csv.translate flat_map].
    change (dquote =? 13) with false. change (dquote =? 10) with false.
    change (dquote =? dquote) with true.
    cbn [app Csv.translate flat_map].
    change (dquote =? 13) with false. change (dquote =? 10) with false.
    cbn iota. now rewrite IH.
  - cbn [app Csv.translate].
    destruct (x =? 13).
    + cbn [flat_map app]. now rewrite IH.
    + destruct (x =? 10).
      * destruct pending; [apply IH|]. cbn [flat_map app]. now rewrite IH.
      * cbn [flat_map]. apply N.eqb_neq in Hq. rewrite Hq.
        cbn [app]. now rewrite IH.
Qed.

Lemma translate_field f pending c rest :
  (c =? 10) = false ->
  Csv.translate pending (Csv.write_field f ++ c :: rest)
  = lf_field f ++ Csv.translate false (c :: rest).
Proof.
  intros Hc. unfold Csv.write_field, lf_field.
  destruct (existsb Csv.needs_quotes f) eqn:Hf.
  - fold (doubled f). cbn [app Csv.translate].
    change (dquote =? 13) with false. change (dquote =? 10) with false.
    cbn iota. rewrite <- !app_assoc. cbn [app].
    rewrite translate_doubled. unfold Csv.universal_newlines.
    reflexivity.
  - now apply translate_plain.
Qed.

Lemma translate_row fields : forall pending rest,
  Csv.translate pending (Csv.write_row fields ++ rest)
  = (lf_join fields ++ [10]) ++ Csv.translate false rest.
Proof.
  unfold Csv.write_row.
  induction fields as [|f fields IH]; intros pending rest.
  - reflexivity.
  - destruct fields as [|f' fields].
    + cbn [Csv.join_fields lf_join]. rewrite <- !app_assoc. cbn [app].
      now rewrite translate_field.
    + change (Csv.join_fields (f :: f' :: fields))
        with (Csv.write_field f ++ 44 :: Csv.join_fields (f' :: fields)).
      change (lf_join (f :: f' :: fields))
        with (lf_field f ++ 44 :: lf_join (f' :: fields)).
      rewrite <- !app_assoc. cbn [app].
      rewrite translate_field by reflexivity.
      cbn [Csv.translate]. cbn iota.
      specialize (IH false rest). rewrite <- !app_assoc in IH. cbn [app] in IH.
      now rewrite IH.
Qed.

Lemma translate_rows rows :
  Csv.universal_newlines (flat_map Csv.write_row rows) = lf_text rows.
Proof.
  unfold Csv.universal_newlines, lf_text.
  induction rows as [|r rows IH]; cbn [flat_map]; [reflexivity|].
  now rewrite translate_row, IH.
Qed.

Lemma translate_length s : forall pending,
  (length (Csv.translate pending s) <= length s)%nat.
Proof.
  induction s as [|c s IH]; intros pending; cbn [Csv.translate length];
    [lia|].
  destruct (c =? 13); [cbn; specialize (IH true); lia|].
  destruct (c =? 10); [|cbn; specialize (IH false); lia].
  destruct pending; cbn; specialize (IH false); lia.
Qed.

Lemma universal_newlines_id s :
  forallb (not_char 13) s = true -> Csv.universal_newlines s = s.
Proof.
  unfold Csv.universal_newlines.
  induction s as [|c s IH]; cbn [forallb Csv.translate]; [reflexivity|].
  intros H. apply andb_true_iff in H as [Hc Hs].
  unfold not_char in Hc. apply negb_true_iff in Hc. rewrite Hc.
  rewrite (IH Hs). now destruct (N.eqb_spec c 10) as [->|].
Qed.

(** *** Reading the fields back *)

Lemma add_char_ok st fs cur next c :
  N.of_nat (length cur) < Csv.field_limit ->
  Csv.parse_add_char (Csv.mkReader st fs cur) next c
  = Csv.Parsed (Csv.mkReader next fs (cur ++ [c])).
Proof.
  intros H. unfold Csv.parse_add_char. cbn [Csv.field Csv.fields].
  apply N.leb_gt in H. now rewrite H.
Qed.

Lemma room_for_one (cur : str) x g :
  N.of_nat (length (cur ++ x :: g)) <= Csv.field_limit ->
  N.of_nat (length cur) < Csv.field_limit
  /\ N.of_nat (length ((cur ++ [x]) ++ g)) <= Csv.field_limit.
Proof.
  rewrite <- app_assoc. cbn [app]. rewrite !length_app. cbn [length].
  unfold Csv.field_limit. lia.
Qed.

Lemma end_comma st fs cur ml rest :
  st = Csv.START_RECORD \/ st = Csv.START_FIELD \/ st = Csv.IN_FIELD
  \/ st = Csv.QUOTE_IN_QUOTED_FIELD ->
  stream (Csv.mkReader st fs cur) ml (44 :: rest)
  = stream (Csv.mkReader Csv.START_FIELD (fs ++ [cur]) []) true rest.
Proof. intros [->|[->|[->| ->]]]; reflexivity. Qed.

Lemma end_lf st fs cur ml rest :
  st = Csv.START_FIELD \/ st = Csv.IN_FIELD
  \/ st = Csv.QUOTE_IN_QUOTED_FIELD ->
  stream (Csv.mkReader st fs cur) ml (10 :: rest)
  = then_records (fs ++ [cur]) (stream Csv.reset false rest).
Proof. intros [->|[->| ->]]; reflexivity. Qed.

Lemma in_field_run g : forall fs cur ml c rest,
  existsb Csv.needs_quotes g = false ->
  N.of_nat (length (cur ++ g)) <= Csv.field_limit ->
  stream (Csv.mkReader Csv.IN_FIELD fs cur) ml (g ++ c :: rest)
  = stream (Csv.mkReader Csv.IN_FIELD fs (cur ++ g)) true (c :: rest).
Proof.
  induction g as [|x g IH]; intros fs cur ml c rest Hg Hlen.
  - now rewrite app_nil_r.
  - cbn [existsb] in Hg. apply orb_false_iff in Hg as [Hx Hg].
    destruct (needs_quotes_false _ Hx) as (Hcomma & Hquote & Hcr & Hlf).
    destruct (room_for_one _ _ _ Hlen) as [Hroom Hlen'].
    cbn [app stream]. unfold Csv.parse_process_char at 1.
    cbn [Csv.state Csv.is_newline]. rewrite Hlf, Hcr, Hcomma.
    cbn [orb]. rewrite (add_char_ok _ _ _ _ _ Hroom).
    rewrite (IH fs (cur ++ [x]) true c rest Hg Hlen').
    now rewrite <- app_assoc.
Qed.

Lemma quoted_run g : forall fs cur ml rest,
  N.of_nat (length (cur ++ g)) <= Csv.field_limit ->
  stream (Csv.mkReader Csv.IN_QUOTED_FIELD fs cur) ml
         (doubled g ++ dquote :: rest)
  = stream (Csv.mkReader Csv.QUOTE_IN_QUOTED_FIELD fs (cur ++ g)) true rest.
Proof.
  unfold doubled.
  induction g as [|x g IH]; intros fs cur ml rest Hlen.
  - rewrite app_nil_r. reflexivity.
  - destruct (room_for_one _ _ _ Hlen) as [Hroom Hlen'].
    cbn [flat_map]. destruct (N.eqb_spec x dquote) as [->|Hq].
    + cbn [app stream]. unfold Csv.parse_process_char at 1.
      cbn [Csv.state]. change (dquote =? dquote) with true. cbn iota.
      change (dquote =? 10) with false. cbn iota.
      unfold Csv.set_state. cbn [Csv.fields Csv.field].
      unfold Csv.parse_process_char at 1. cbn [Csv.state].
      change (dquote =? dquote) with true. cbn iota.
      rewrite (add_char_ok _ _ _ _ _ Hroom).
      rewrite (IH fs (cur ++ [dquote]) true rest Hlen').
      now rewrite <- app_assoc.
    + apply N.eqb_neq in Hq.
      cbn [app stream]. unfold Csv.parse_process_char at 1.
      cbn [Csv.state]. rewrite Hq.
      rewrite (add_char_ok _ _ _ _ _ Hroom).
      destruct (x =? 10).
      * cbn. rewrite (IH fs (cur ++ [x]) false rest Hlen').
        now rewrite <- app_assoc.
      * rewrite (IH fs (cur ++ [x]) true rest Hlen').
        now rewrite <- app_assoc.
Qed.

Lemma read_field f st0 fs c rest ml :
  st0 = Csv.START_RECORD \/ st0 = Csv.START_FIELD ->
  N.of_nat (length f) <= Csv.field_limit ->
  exists st',
    (st' = st0 \/ st' = Csv.IN_FIELD \/ st' = Csv.QUOTE_IN_QUOTED_FIELD)
    /\ stream (Csv.mkReader st0 fs []) ml (lf_field f ++ c :: rest)
       = stream (Csv.mkReader st' fs (Csv.universal_newlines f)) true
                (c :: rest).
Proof.
  intros Hst Hlen. unfold lf_field.
  destruct (existsb Csv.needs_quotes f) eqn:Hf.
  - exists Csv.QUOTE_IN_QUOTED_FIELD. split; [auto|].
    assert (Hlen' : N.of_nat (length ([] ++ Csv.universal_newlines f))
                    <= Csv.field_limit).
    { cbn [app]. pose proof (translate_length f false).
      unfold Csv.universal_newlines. lia. }
    cbn [app]. rewrite <- app_assoc. cbn [app].
    change (Csv.universal_newlines f) with ([] ++ Csv.universal_newlines f)
      at 2.
    rewrite <- (quoted_run _ fs [] true (c :: rest) Hlen').
    destruct Hst as [-> | ->]; reflexivity.
  - unfold Csv.universal_newlines. rewrite (translate_plain_id _ false Hf).
    destruct f as [|x g].
    + exists st0. split; [auto|]. cbn [app].
      destruct Hst as [-> | ->]; reflexivity.
    + exists Csv.IN_FIELD. split; [auto|].
      cbn [existsb] in Hf. apply orb_false_iff in Hf as [Hx Hg].
      destruct (needs_quotes_false _ Hx) as (Hcomma & Hquote & Hcr & Hlf).
      change (x :: g) with ([x] ++ g) at 2.
      rewrite <- (in_field_run g fs [x] true c rest Hg Hlen).
      cbn [app stream].
      assert (Hstep :
        Csv.parse_process_char (Csv.mkReader st0 fs []) (Csv.Char x)
        = Csv.Parsed (Csv.mkReader Csv.IN_FIELD fs [x])).
      { destruct Hst as [-> | ->]; unfold Csv.parse_process_char;
          cbn [Csv.state Csv.is_newline]; rewrite Hlf, Hcr, Hcomma, Hquote;
          reflexivity. }
      now rewrite Hstep, Hlf.
Qed.

Lemma read_field_comma f st0 fs rest ml :
  st0 = Csv.START_RECORD \/ st0 = Csv.START_FIELD ->
  N.of_nat (length f) <= Csv.field_limit ->
  stream (Csv.mkReader st0 fs []) ml (lf_field f ++ 44 :: rest)
  = stream (Csv.mkReader Csv.START_FIELD
                         (fs ++ [Csv.universal_newlines f]) []) true rest.
Proof.
  intros Hst Hlen.
  destruct (read_field f fs 44 rest ml Hst Hlen) as (st' & Hst' & ->).
  apply end_comma. destruct Hst' as [->|[->| ->]]; tauto.
Qed.

Lemma read_field_lf f fs rest ml :
  N.of_nat (length f) <= Csv.field_limit ->
  stream (Csv.mkReader Csv.START_FIELD fs []) ml (lf_field f ++ 10 :: rest)
  = then_records (fs ++ [Csv.universal_newlines f])
                 (stream Csv.reset false rest).
Proof.
  intros Hlen.
  destruct (read_field f fs 10 rest ml (or_intror eq_refl) Hlen)
    as (st' & Hst' & ->).
  apply end_lf. tauto.
Qed.

Lemma read_fields fields : forall fs ml rest,
  fields <> [] ->
  Forall (fun x => N.of_nat (length x) <= Csv.field_limit) fields ->
  stream (Csv.mkReader Csv.START_FIELD fs []) ml
         (lf_join fields ++ 10 :: rest)
  = then_records (fs ++ map Csv.universal_newlines fields)
                 (stream Csv.reset false rest).
Proof.
  induction fields as [|f fields IH]; intros fs ml rest Hne Hall;
    [congruence|].
  inversion_clear Hall as [|? ? Hf Hfields].
  destruct fields as [|f' fields].
  - cbn [lf_join map]. now apply read_field_lf.
  - change (lf_join (f :: f' :: fields))
      with (lf_field f ++ 44 :: lf_join (f' :: fields)).
    rewrite <- app_assoc. cbn [app].
    rewrite read_field_comma by auto.
    rewrite IH by (auto; discriminate).
    cbn [map]. now rewrite <- app_assoc.
Qed.

Lemma read_record f f' fields ml rest :
  Forall (fun x => N.of_nat (length x) <= Csv.field_limit)
         (f :: f' :: fields) ->
  stream Csv.reset ml (lf_join (f :: f' :: fields) ++ 10 :: rest)
  = then_records (map Csv.universal_newlines (f :: f' :: fields))
                 (stream Csv.reset false rest).
Proof.
  intros Hall. inversion_clear Hall as [|? ? Hf Hfields].
  change (lf_join (f :: f' :: fields))
    with (lf_field f ++ 44 :: lf_join (f' :: fields)).
  rewrite <- app_assoc. cbn [app]. unfold Csv.reset at 1.
  rewrite read_field_comma by auto.
  now rewrite read_fields by (auto; discriminate).
Qed.

Lemma read_rows_back rows :
  Forall (fun row => (2 <= length row)%nat
                     /\ Forall (fun x => N.of_nat (length x)
                                         <= Csv.field_limit) row) rows ->
  stream Csv.reset false (lf_text rows)
  = Csv.Parsed (map (map Csv.universal_newlines) rows).
Proof.
  unfold lf_text.
  induction rows as [|row rows IH]; intros Hall; [reflexivity|].
  inversion_clear Hall as [|? ? [Hlen Hrow] Hrows].
  destruct row as [|f [|f' fields]]; cbn [length] in Hlen; try lia.
  cbn [flat_map map]. rewrite <- app_assoc. cbn [app].
  rewrite read_record by assumption.
  now rewrite (IH Hrows).
Qed.

(** *** The rows of the written file *)

Lemma text_of_rows all_feeds :
  Csv.text_of all_feeds
  = flat_map Csv.write_row (Csv.fieldnames :: map Csv.feed_fields all_feeds).
Proof.
  unfold Csv.text_of. cbn [flat_map]. f_equal.
  induction all_feeds as [|f fs IH]; cbn [flat_map map]; [reflexivity|].
  now rewrite IH.
Qed.

Lemma dict_rows_text_of all_feeds :
  Forall within_limit all_feeds ->
  Csv.dict_rows (Csv.text_of all_feeds)
  = Csv.Parsed (map (fun f => row_of (translated f)) all_feeds).
Proof.
  intros Hall. unfold Csv.dict_rows.
  rewrite text_of_rows, translate_rows, records_of_text, read_rows_back.
  - cbn [map]. f_equal.
    induction all_feeds as [|f fs IH]; [reflexivity|].
    inversion_clear Hall as [|? ? _ Hfs].
    cbn [map filter Csv.feed_fields Csv.is_empty_record negb].
    now rewrite (IH Hfs).
  - constructor.
    + split; [cbn; lia|]. repeat constructor; vm_compute; discriminate.
    + apply Forall_forall. intros row Hrow.
      apply in_map_iff in Hrow as (f & <- & Hf).
      rewrite Forall_forall in Hall. split; [cbn; lia|]. now apply Hall.
Qed.

Lemma translated_no_cr f : no_cr f = true -> translated f = f.
Proof.
  unfold no_cr, translated. destruct f as [t d u ty c]. cbn.
  intros H. repeat (apply andb_true_iff in H as [? H]).
  now rewrite !universal_newlines_id.
Qed.

(** X13.  The file [convert_opml_to_csv] writes, read as
    [post_all_feeds] reads it, gives one row for every record, in
    order, with the five values under their names, whatever commas,
    quotes and line feeds the values hold, except that the reading
    turns every CR LF and every CR inside a value into LF (the file is
    written with newline='' but read without it).  No value may be
    longer than 131072 characters, the reader's limit. *)
Theorem X13_csv_read_back all_feeds :
  Forall within_limit all_feeds ->
  Csv.dict_rows (Csv.text_of all_feeds)
  = Csv.Parsed (map (fun f => row_of (translated f)) all_feeds).
Proof. apply dict_rows_text_of. Qed.

Lemma X13_csv_read_back_witness :
  Csv.dict_rows (Csv.text_of [quoted_feed; cr_feed])
  = Csv.Parsed [row_of quoted_feed;
                row_of (mkFeed (py "Tech") (py "one" ++ [10] ++ py "two")
                               (py "https://example.org/rss") (py "rss")
                               (py "tech"))].
Proof.
  apply (@X13_csv_read_back [quoted_feed; cr_feed]).
  repeat constructor; vm_compute; discriminate.
Defined.

(** X14.  Round trip: when no value holds a carriage return (and none
    is longer than the reader's limit), the rows read back are exactly
    the records written. *)
Theorem X14_csv_round_trip all_feeds :
  Forall within_limit all_feeds ->
  forallb no_cr all_feeds = true ->
  Csv.dict_rows (Csv.text_of all_feeds) = Csv.Parsed (map row_of all_feeds).
Proof.
  intros Hall Hcr. rewrite (dict_rows_text_of Hall). f_equal.
  apply map_ext_in. intros f Hf.
  rewrite forallb_forall in Hcr. now rewrite (translated_no_cr _ (Hcr f Hf)).
Qed.

Lemma X14_csv_round_trip_witness :
  Csv.dict_rows (Csv.text_of [quoted_feed; tech_feed])
  = Csv.Parsed [row_of quoted_feed; row_of tech_feed].
Proof.
  apply (@X14_csv_round_trip [quoted_feed; tech_feed]).
  - repeat constructor; vm_compute; discriminate.
  - vm_compute. reflexivity.
Defined.

(** ** [post_all_feeds] *)

Lemma requests_app l1 l2 : requests (l1 ++ l2) = requests l1 ++ requests l2.
Proof. apply flat_map_app. Qed.

Lemma sleeps_app l1 l2 : sleeps (l1 ++ l2) = (sleeps l1 + sleeps l2)%nat.
Proof. unfold sleeps. now rewrite filter_app, length_app. Qed.

Lemma requests_so_far_length l :
  Poster.requests_so_far l = length (requests l).
Proof.
  unfold Poster.requests_so_far, requests.
  induction l as [|[line|r|] l IH]; cbn; auto.
Qed.

Lemma stripped_value row key s st :
  Csv.getitem row (Some key) = Some (Csv.VStr s) ->
  Poster.stripped row key st = (Poster.Done (Poster.strip s), st).
Proof. intros H. unfold Poster.stripped. now rewrite H. Qed.

Lemma stripped_error row key msg st :
  value_error row key = Some msg ->
  Poster.stripped row key st
  = (Poster.Raised (Poster.OtherException msg), st).
Proof.
  unfold value_error, Poster.stripped.
  destruct (Csv.getitem row (Some key)) as [[s| |l]|]; intros [= <-];
    reflexivity.
Qed.

Lemma value_error_none row key :
  value_error row key = None ->
  exists s, Csv.getitem row (Some key) = Some (Csv.VStr s).
Proof.
  unfold value_error.
  destruct (Csv.getitem row (Some key)) as [[s| |l]|]; try discriminate.
  eauto.
Qed.

Lemma row_values_some row :
  row_error row = None ->
  exists t u c,
    Csv.getitem row (Some (py "title")) = Some (Csv.VStr t)
    /\ Csv.getitem row (Some (py "url")) = Some (Csv.VStr u)
    /\ Csv.getitem row (Some (py "category")) = Some (Csv.VStr c)
    /\ row_values row
       = Some (Poster.strip t, Poster.strip u, Poster.strip c).
Proof.
  unfold row_error, row_values.
  destruct (value_error row (py "title")) eqn:Ht; [discriminate|].
  destruct (value_error row (py "url")) eqn:Hu; [discriminate|].
  intros Hc.
  apply value_error_none in Ht as [t Ht].
  apply value_error_none in Hu as [u Hu].
  apply value_error_none in Hc as [c Hc].
  exists t, u, c. now rewrite Ht, Hu, Hc.
Qed.

(** One call of [post_rss_feed] in a world that answers. *)
Lemma post_rss_feed_run w api_url t u d c st :
  answers w ->
  let r := Poster.mkRequest api_url t u d c in
  exists line,
    Poster.post_rss_feed w api_url t u d c st
    = (Poster.Done
         (is_accepted (Poster.reply_to w (length (requests (Poster.out st))) r)),
       Poster.mkState (Poster.successful_posts st) (Poster.failed_posts st)
                      (Poster.out st
                       ++ [Poster.Requested r; Poster.Printed line])).
Proof.
  intros Hw r. specialize (Hw (length (requests (Poster.out st))) r).
  unfold Poster.post_rss_feed, Poster.catch, Poster.bind at 1,
    Poster.requests_post.
  rewrite requests_so_far_length. fold r.
  destruct (Poster.reply_to w (length (requests (Poster.out st))) r)
    as [status_code text|[msg|msg|msg]]; try contradiction.
  - cbn [is_accepted].
    destruct ((status_code =? 200) || (status_code =? 201));
      unfold Poster.bind, Poster.print, Poster.emit, Poster.ret;
      cbn [Poster.out Poster.successful_posts Poster.failed_posts];
      rewrite <- app_assoc; eexists; reflexivity.
  - cbn [is_accepted].
    unfold Poster.bind, Poster.print, Poster.emit, Poster.ret.
    cbn [Poster.out Poster.successful_posts Poster.failed_posts].
    rewrite <- app_assoc. eexists; reflexivity.
Qed.

Lemma accepted_app w rs1 : forall n rs2,
  accepted w n (rs1 ++ rs2)
  = (accepted w n rs1 + accepted w (n + length rs1) rs2)%nat.
Proof.
  induction rs1 as [|r rs1 IH]; intros n rs2; cbn [app accepted length].
  - now rewrite Nat.add_0_r.
  - rewrite IH. replace (S n + length rs1)%nat with (n + S (length rs1))%nat
      by lia. lia.
Qed.

Lemma due_app chk api_url rows1 rows2 :
  due chk api_url (rows1 ++ rows2)
  = due chk api_url rows1 ++ due chk api_url rows2.
Proof. apply flat_map_app. Qed.

Lemma due_cons chk api_url row rows :
  due chk api_url (row :: rows)
  = due chk api_url [row] ++ due chk api_url rows.
Proof. apply (due_app chk api_url [row] rows). Qed.

(** One turn of the loop, for a row that has its three values. *)
Lemma process_row_run w api_url delay total_feeds i row st :
  row_error row = None -> answers w -> Poster.sleep_error delay = None ->
  exists st',
    Poster.process_row w api_url delay total_feeds i row st
    = (Poster.Done tt, st')
    /\ requests (Poster.out st')
       = requests (Poster.out st) ++ due (Poster.checks w) api_url [row]
    /\ Poster.successful_posts st'
       = (Poster.successful_posts st
          + accepted w (length (requests (Poster.out st)))
                     (due (Poster.checks w) api_url [row]))%nat
    /\ (Poster.successful_posts st' + Poster.failed_posts st'
        = Poster.successful_posts st + Poster.failed_posts st
          + length (due (Poster.checks w) api_url [row]))%nat
    /\ sleeps (Poster.out st')
       = (sleeps (Poster.out st)
          + if (i <? total_feeds)%nat
            then length (due (Poster.checks w) api_url [row]) else 0)%nat.
Proof.
  intros Hrow Hw Hdelay.
  destruct (row_values_some _ Hrow) as (t & u & c & Ht & Hu & Hc & Hvalues).
  unfold due, request_of. cbn [flat_map]. rewrite Hvalues, app_nil_r.
  unfold Poster.process_row.
  unfold Poster.bind at 1. rewrite (stripped_value _ _ _ Ht).
  unfold Poster.bind at 1. rewrite (stripped_value _ _ _ Hu).
  unfold Poster.bind at 1. rewrite (stripped_value _ _ _ Hc).
  destruct (Poster.is_empty (Poster.strip t) || Poster.is_empty (Poster.strip u)
            || Poster.is_empty (Poster.strip c)).
  - eexists. split; [reflexivity|].
    cbn [Poster.out Poster.successful_posts Poster.failed_posts length
         accepted].
    rewrite requests_app, sleeps_app.
    destruct (i <? total_feeds)%nat; cbn; rewrite !app_nil_r, !Nat.add_0_r;
      auto.
  - unfold Poster.bind at 1, Poster.print at 1, Poster.emit at 1.
    unfold Poster.bind at 1.
    set (st1 := Poster.mkState _ _ (Poster.out st ++ [_])).
    destruct (@post_rss_feed_run w api_url (Poster.strip t) (Poster.strip u)
                (Poster.extract_domain (Poster.checks w) (Poster.strip u))
                (Poster.strip c) st1 Hw) as [line ->].
    set (r := Poster.mkRequest _ _ _ _ _).
    assert (Hn : length (requests (Poster.out st1))
                 = length (requests (Poster.out st))).
    { subst st1. cbn [Poster.out]. rewrite requests_app. cbn.
      now rewrite app_nil_r. }
    rewrite Hn.
    unfold Poster.sleep. rewrite Hdelay.
    cbn [accepted length]. rewrite Nat.add_0_r.
    destruct (is_accepted (Poster.reply_to w _ r));
      unfold Poster.bind, Poster.add_successful, Poster.add_failed,
        Poster.ret, Poster.emit;
      cbn [Poster.out Poster.successful_posts Poster.failed_posts];
      destruct (i <? total_feeds)%nat;
      (eexists; split; [reflexivity|]);
      cbn [Poster.out Poster.successful_posts Poster.failed_posts];
      subst st1; cbn [Poster.out Poster.successful_posts Poster.failed_posts];
      rewrite ?requests_app, ?sleeps_app; cbn;
      rewrite ?app_nil_r; repeat split; lia || auto.
Qed.

(** The loop over rows that all have their three values. *)
Lemma process_rows_run w api_url delay total_feeds rows : forall i st,
  Forall (fun row => row_error row = None) rows ->
  answers w -> Poster.sleep_error delay = None ->
  exists st',
    Poster.process_rows w api_url delay total_feeds i rows st
    = (Poster.Done tt, st')
    /\ requests (Poster.out st')
       = requests (Poster.out st) ++ due (Poster.checks w) api_url rows
    /\ Poster.successful_posts st'
       = (Poster.successful_posts st
          + accepted w (length (requests (Poster.out st)))
                     (due (Poster.checks w) api_url rows))%nat
    /\ (Poster.successful_posts st' + Poster.failed_posts st'
        = Poster.successful_posts st + Poster.failed_posts st
          + length (due (Poster.checks w) api_url rows))%nat
    /\ sleeps (Poster.out st')
       = (sleeps (Poster.out st)
          + length (due (Poster.checks w) api_url
                        (firstn (total_feeds - i) rows)))%nat.
Proof.
  induction rows as [|row rows IH]; intros i st Hrows Hw Hdelay.
  - exists st. cbn [Poster.process_rows]. unfold Poster.ret.
    rewrite firstn_nil. cbn. rewrite app_nil_r, !Nat.add_0_r. auto.
  - inversion_clear Hrows as [|? ? Hrow Hrows'].
    destruct (@process_row_run w api_url delay total_feeds i row st
                Hrow Hw Hdelay) as (st1 & Hrun1 & Hreq1 & Hs1 & Hc1 & Hsl1).
    destruct (IH (S i) st1 Hrows' Hw Hdelay)
      as (st2 & Hrun2 & Hreq2 & Hs2 & Hc2 & Hsl2).
    exists st2. cbn [Poster.process_rows]. unfold Poster.bind.
    rewrite Hrun1, Hrun2. split; [reflexivity|].
    assert (Hfirst :
      length (due (Poster.checks w) api_url
                  (firstn (total_feeds - i) (row :: rows)))
      = ((if (i <? total_feeds)%nat
          then length (due (Poster.checks w) api_url [row]) else 0)
         + length (due (Poster.checks w) api_url
                       (firstn (total_feeds - S i) rows)))%nat).
    { destruct (Nat.ltb_spec i total_feeds) as [Hlt|Hge].
      - replace (total_feeds - i)%nat with (S (total_feeds - S i)) by lia.
        cbn [firstn]. now rewrite (due_cons _ _ row (firstn _ rows)), length_app.
      - replace (total_feeds - i)%nat with 0%nat by lia.
        replace (total_feeds - S i)%nat with 0%nat by lia.
        reflexivity. }
    rewrite Hfirst, (due_cons _ _ row rows).
    rewrite Hreq1, length_app in Hs2.
    rewrite Hreq2, Hreq1, Hs2, Hs1, Hsl2, Hsl1, accepted_app, !length_app.
    rewrite <- app_assoc. repeat split; lia.
Qed.

Lemma bind_print A line (k : Poster.P A) st :
  Poster.bind (Poster.print line) (fun _ => k) st
  = k (Poster.mkState (Poster.successful_posts st) (Poster.failed_posts st)
                      (Poster.out st ++ [Poster.Printed line])).
Proof. reflexivity. Qed.

Lemma read_rows_ok w csv_file text rows st :
  Poster.file_text w csv_file = Poster.Done text ->
  Csv.dict_rows text = Csv.Parsed rows ->
  Poster.read_rows w csv_file st = (Poster.Done rows, st).
Proof. intros Hfile Hrows. unfold Poster.read_rows. now rewrite Hfile, Hrows. Qed.

Lemma last_snoc {A} (l : list A) x d : last (l ++ [x]) d = x.
Proof. apply last_last. Qed.

Lemma lines_printed_app l1 l2 :
  lines_printed (l1 ++ l2) = lines_printed l1 ++ lines_printed l2.
Proof. apply flat_map_app. Qed.

(** A run over a file whose rows all have their three values, in a
    world that answers. *)
Lemma poster_run_complete w csv_file api_url delay text rows :
  Poster.file_text w csv_file = Poster.Done text ->
  Csv.dict_rows text = Csv.Parsed rows ->
  Forall (fun row => row_error row = None) rows ->
  answers w -> Poster.sleep_error delay = None ->
  exists st,
    Poster.run w csv_file api_url delay = (Poster.Done tt, st)
    /\ requests (Poster.out st) = due (Poster.checks w) api_url rows
    /\ Poster.successful_posts st
       = accepted w 0 (due (Poster.checks w) api_url rows)
    /\ (Poster.successful_posts st + Poster.failed_posts st
        = length (due (Poster.checks w) api_url rows))%nat
    /\ sleeps (Poster.out st)
       = length (due (Poster.checks w) api_url (removelast rows))
    /\ last (lines_printed (Poster.out st)) []
       = if (0 <? Poster.failed_posts st)%nat
         then 10 :: Poster.warning_sign ++ py "  "
              ++ decimal (N.of_nat (Poster.failed_posts st))
              ++ py " feeds failed to post. Check the error messages above."
         else 10 :: Poster.party_popper ++ py " All feeds posted successfully!".
Proof.
  intros Hfile Hrows Hgood Hw Hdelay.
  unfold Poster.run, Poster.post_all_feeds.
  rewrite !bind_print.
  cbn [Poster.out Poster.successful_posts Poster.failed_posts app].
  unfold Poster.bind at 1, Poster.catch at 1. unfold Poster.bind at 1.
  rewrite (read_rows_ok _ _ _ Hfile Hrows).
  rewrite !bind_print.
  cbn [Poster.out Poster.successful_posts Poster.failed_posts app].
  unfold Poster.bind at 1.
  match goal with
  | |- context [Poster.process_rows _ _ _ _ _ _ ?s] => set (st0 := s)
  end.
  destruct (@process_rows_run w api_url delay (length rows) rows 1 st0
              Hgood Hw Hdelay) as (st1 & -> & Hreq & Hs & Hc & Hsl).
  unfold Poster.ret at 1. unfold Poster.summary.
  rewrite !bind_print.
  cbn [Poster.out Poster.successful_posts Poster.failed_posts].
  unfold Poster.bind at 1. rewrite !bind_print.
  unfold Poster.bind at 1. rewrite !bind_print.
  cbn [Poster.out Poster.successful_posts Poster.failed_posts].
  assert (Hfirst : firstn (length rows - 1) rows = removelast rows).
  { clear. induction rows as [|r [|r' rows] IH]; cbn [length] in *; auto.
    replace (S (S (length rows)) - 1)%nat with (S (S (length rows) - 1)) by lia.
    cbn [firstn]. rewrite IH. reflexivity. }
  rewrite Hfirst in Hsl.
  subst st0. cbn in Hreq, Hs, Hc, Hsl.
  destruct (0 <? Poster.failed_posts st1)%nat eqn:Hfailed;
    unfold Poster.print, Poster.emit;
    cbn [Poster.out Poster.successful_posts Poster.failed_posts];
    (eexists; split; [reflexivity|]);
    cbn [Poster.out Poster.successful_posts Poster.failed_posts];
    rewrite !requests_app, !sleeps_app, !lines_printed_app;
    cbn [requests sleeps lines_printed flat_map filter length app];
    rewrite !app_nil_r, !Nat.add_0_r, app_assoc, last_snoc, Hfailed;
    repeat split; auto; lia.
Qed.

(** X15.  In a world where every request is answered or fails with
    a RequestException and the pause is accepted, if the file is read
    and every row has its title, URL and category, the requests made
    are those of the rows whose three values are not empty once
    stripped, one for each, in the order of the rows, with the stripped
    values and the domain [extract_domain] gives for the stripped
    URL. *)
Theorem X15_requests_follow_the_rows w csv_file api_url delay text rows :
  Poster.file_text w csv_file = Poster.Done text ->
  Csv.dict_rows text = Csv.Parsed rows ->
  Forall (fun row => row_error row = None) rows ->
  answers w -> Poster.sleep_error delay = None ->
  requests (Poster.out (snd (Poster.run w csv_file api_url delay)))
  = due (Poster.checks w) api_url rows.
Proof.
  intros Hfile Hrows Hgood Hw Hdelay.
  destruct (@poster_run_complete w csv_file api_url delay text rows
              Hfile Hrows Hgood Hw Hdelay) as (st & -> & Hreq & _).
  exact Hreq.
Qed.

Lemma X15_requests_follow_the_rows_witness :
  requests (Poster.out (snd (Poster.run
     (friendly (py "rss_feeds.csv") untitled_last_text)
     (py "rss_feeds.csv") (py "https://api.example/rss") half_second)))
  = [Poster.mkRequest (py "https://api.example/rss") (py "First")
       (py "https://a.example/feed") (py "a.example") (py "news")].
Proof.
  apply (@X15_requests_follow_the_rows
           (friendly (py "rss_feeds.csv") untitled_last_text)
           (py "rss_feeds.csv") (py "https://api.example/rss") half_second
           untitled_last_text [first_row; untitled_row]).
  - reflexivity.
  - vm_compute. reflexivity.
  - repeat constructor.
  - intros n r. exact I.
  - reflexivity.
Defined.

(** X16.  In such a run every request is counted once, as successful
    when its reply has status 200 or 201 and as failed otherwise, and
    the closing line depends on the failed count alone: it says that
    all feeds were posted successfully whenever no request failed, also
    when rows were skipped or no request was made. *)
Theorem X16_every_request_is_counted w csv_file api_url delay text rows :
  Poster.file_text w csv_file = Poster.Done text ->
  Csv.dict_rows text = Csv.Parsed rows ->
  Forall (fun row => row_error row = None) rows ->
  answers w -> Poster.sleep_error delay = None ->
  let st := snd (Poster.run w csv_file api_url delay) in
  Poster.successful_posts st = accepted w 0 (requests (Poster.out st))
  /\ (Poster.successful_posts st + Poster.failed_posts st
      = length (requests (Poster.out st)))%nat
  /\ last (lines_printed (Poster.out st)) []
     = if (0 <? Poster.failed_posts st)%nat
       then 10 :: Poster.warning_sign ++ py "  "
            ++ decimal (N.of_nat (Poster.failed_posts st))
            ++ py " feeds failed to post. Check the error messages above."
       else 10 :: Poster.party_popper ++ py " All feeds posted successfully!".
Proof.
  intros Hfile Hrows Hgood Hw Hdelay.
  destruct (@poster_run_complete w csv_file api_url delay text rows
              Hfile Hrows Hgood Hw Hdelay)
    as (st & -> & Hreq & Hs & Hc & _ & Hlast).
  cbn [snd]. rewrite Hreq. auto.
Qed.

Lemma X16_every_request_is_counted_witness :
  let w := friendly (py "rss_feeds.csv") untitled_last_text in
  let st := snd (Poster.run w (py "rss_feeds.csv")
                            (py "https://api.example/rss") half_second) in
  Poster.successful_posts st = accepted w 0 (requests (Poster.out st))
  /\ (Poster.successful_posts st + Poster.failed_posts st
      = length (requests (Poster.out st)))%nat
  /\ last (lines_printed (Poster.out st)) []
     = if (0 <? Poster.failed_posts st)%nat
       then 10 :: Poster.warning_sign ++ py "  "
            ++ decimal (N.of_nat (Poster.failed_posts st))
            ++ py " feeds failed to post. Check the error messages above."
       else 10 :: Poster.party_popper ++ py " All feeds posted successfully!".
Proof.
  apply (@X16_every_request_is_counted
           (friendly (py "rss_feeds.csv") untitled_last_text)
           (py "rss_feeds.csv") (py "https://api.example/rss") half_second
           untitled_last_text [first_row; untitled_row]).
  - reflexivity.
  - vm_compute. reflexivity.
  - repeat constructor.
  - intros n r. exact I.
  - reflexivity.
Defined.

(** X17.  In such a run a pause follows every request except the one
    made for the last row of the file: the pauses are as many as the
    requests due to the rows before the last.  When the last row is
    skipped, a pause follows the last request too. *)
Theorem X17_pause_after_each_but_last_row w csv_file api_url delay text rows :
  Poster.file_text w csv_file = Poster.Done text ->
  Csv.dict_rows text = Csv.Parsed rows ->
  Forall (fun row => row_error row = None) rows ->
  answers w -> Poster.sleep_error delay = None ->
  sleeps (Poster.out (snd (Poster.run w csv_file api_url delay)))
  = length (due (Poster.checks w) api_url (removelast rows)).
Proof.
  intros Hfile Hrows Hgood Hw Hdelay.
  destruct (@poster_run_complete w csv_file api_url delay text rows
              Hfile Hrows Hgood Hw Hdelay)
    as (st & -> & _ & _ & _ & Hsl & _).
  exact Hsl.
Qed.

Lemma X17_pause_after_each_but_last_row_witness :
  sleeps (Poster.out (snd (Poster.run
     (friendly (py "rss_feeds.csv") untitled_last_text)
     (py "rss_feeds.csv") (py "https://api.example/rss") half_second)))
  = 1%nat.
Proof.
  apply (@X17_pause_after_each_but_last_row
           (friendly (py "rss_feeds.csv") untitled_last_text)
           (py "rss_feeds.csv") (py "https://api.example/rss") half_second
           untitled_last_text [first_row; untitled_row]).
  - reflexivity.
  - vm_compute. reflexivity.
  - repeat constructor.
  - intros n r. exact I.
  - reflexivity.
Defined.



Lemma process_row_error w api_url delay total_feeds i row msg st :
  row_error row = Some msg ->
  Poster.process_row w api_url delay total_feeds i row st
  = (Poster.Raised (Poster.OtherException msg), st).
Proof.
  unfold row_error, Poster.process_row. intros H.
  destruct (value_error row (py "title")) as [m|] eqn:Ht.
  - injection H as ->. unfold Poster.bind at 1.
    now rewrite (stripped_error _ _ _ Ht).
  - apply value_error_none in Ht as [t Ht].
    unfold Poster.bind at 1. rewrite (stripped_value _ _ _ Ht).
    destruct (value_error row (py "url")) as [m|] eqn:Hu.
    + injection H as ->. unfold Poster.bind at 1.
      now rewrite (stripped_error _ _ _ Hu).
    + apply value_error_none in Hu as [u Hu].
      unfold Poster.bind at 1. rewrite (stripped_value _ _ _ Hu).
      unfold Poster.bind at 1. now rewrite (stripped_error _ _ _ H).
Qed.

Lemma process_rows_abort w api_url delay total_feeds bad rest msg good :
  forall i st,
  Forall (fun row => row_error row = None) good ->
  row_error bad = Some msg ->
  answers w -> Poster.sleep_error delay = None ->
  exists st',
    Poster.process_rows w api_url delay total_feeds i (good ++ bad :: rest) st
    = (Poster.Raised (Poster.OtherException msg), st')
    /\ requests (Poster.out st')
       = requests (Poster.out st) ++ due (Poster.checks w) api_url good.
Proof.
  induction good as [|row good IH]; intros i st Hgood Hbad Hw Hdelay.
  - exists st. cbn [app Poster.process_rows]. unfold Poster.bind.
    rewrite (process_row_error _ _ _ _ _ _ _ Hbad).
    cbn. now rewrite app_nil_r.
  - inversion_clear Hgood as [|? ? Hrow Hgood'].
    destruct (@process_row_run w api_url delay total_feeds i row st
                Hrow Hw Hdelay) as (st1 & Hrun1 & Hreq1 & _).
    destruct (IH (S i) st1 Hgood' Hbad Hw Hdelay) as (st2 & Hrun2 & Hreq2).
    exists st2. cbn [app Poster.process_rows]. unfold Poster.bind at 1.
    rewrite Hrun1, Hrun2. split; [reflexivity|].
    now rewrite Hreq2, Hreq1, (due_cons _ _ row good), app_assoc.
Qed.

Lemma poster_run_aborted
  w csv_file api_url delay text good bad rest msg :
  Poster.file_text w csv_file = Poster.Done text ->
  Csv.dict_rows text = Csv.Parsed (good ++ bad :: rest) ->
  Forall (fun row => row_error row = None) good ->
  row_error bad = Some msg ->
  answers w -> Poster.sleep_error delay = None ->
  exists st,
    Poster.run w csv_file api_url delay = (Poster.Done tt, st)
    /\ requests (Poster.out st) = due (Poster.checks w) api_url good
    /\ last (lines_printed (Poster.out st)) []
       = Poster.cross_mark ++ py " Error reading CSV file: " ++ msg.
Proof.
  intros Hfile Hrows Hgood Hbad Hw Hdelay.
  unfold Poster.run, Poster.post_all_feeds.
  rewrite !bind_print.
  cbn [Poster.out Poster.successful_posts Poster.failed_posts app].
  unfold Poster.bind at 1, Poster.catch at 1. unfold Poster.bind at 1.
  rewrite (read_rows_ok _ _ _ Hfile Hrows).
  rewrite !bind_print.
  cbn [Poster.out Poster.successful_posts Poster.failed_posts app].
  unfold Poster.bind at 1.
  match goal with
  | |- context [Poster.process_rows _ _ _ _ _ _ ?s] => set (st0 := s)
  end.
  destruct (@process_rows_abort w api_url delay
              (length (good ++ bad :: rest)) bad rest msg good 1 st0
              Hgood Hbad Hw Hdelay) as (st1 & -> & Hreq).
  rewrite bind_print. unfold Poster.ret.
  eexists. split; [reflexivity|].
  cbn [Poster.out Poster.exn_str].
  rewrite requests_app, lines_printed_app, Hreq. subst st0.
  cbn [requests lines_printed flat_map Poster.out app].
  now rewrite app_nil_r, last_snoc.
Qed.

(** X19.  A row without a title, URL or category value (a line of the
    file with too few fields gives such a row) stops the run where it
    stands: the requests of the rows before it have been made, none is
    made for the rows after it, and the run ends, without the summary,
    on a line that reports an error reading the CSV file. *)
Theorem X19_short_row_stops_the_run
  w csv_file api_url delay text good bad rest msg :
  Poster.file_text w csv_file = Poster.Done text ->
  Csv.dict_rows text = Csv.Parsed (good ++ bad :: rest) ->
  Forall (fun row => row_error row = None) good ->
  row_error bad = Some msg ->
  answers w -> Poster.sleep_error delay = None ->
  let st := snd (Poster.run w csv_file api_url delay) in
  requests (Poster.out st) = due (Poster.checks w) api_url good
  /\ last (lines_printed (Poster.out st)) []
     = Poster.cross_mark ++ py " Error reading CSV file: " ++ msg.
Proof.
  intros Hfile Hrows Hgood Hbad Hw Hdelay.
  destruct (@poster_run_aborted w csv_file api_url delay text good bad rest
              msg Hfile Hrows Hgood Hbad Hw Hdelay) as (st & -> & H).
  exact H.
Qed.

Lemma X19_short_row_stops_the_run_witness :
  let st := snd (Poster.run
     (friendly (py "rss_feeds.csv") short_row_text)
     (py "rss_feeds.csv") (py "https://api.example/rss") half_second) in
  requests (Poster.out st)
  = [Poster.mkRequest (py "https://api.example/rss") (py "First")
       (py "https://a.example/feed") (py "a.example") (py "news")]
  /\ last (lines_printed (Poster.out st)) []
     = Poster.cross_mark ++ py " Error reading CSV file: "
       ++ py "'NoneType' object has no attribute 'strip'".
Proof.
  apply (@X19_short_row_stops_the_run
           (friendly (py "rss_feeds.csv") short_row_text)
           (py "rss_feeds.csv") (py "https://api.example/rss") half_second
           short_row_text [first_row] short_row [third_row]
           (py "'NoneType' object has no attribute 'strip'")).
  - reflexivity.
  - vm_compute. reflexivity.
  - repeat constructor.
  - reflexivity.
  - intros n r. exact I.
  - reflexivity.
Defined.

(** X20.  When the file cannot be opened or decoded, no request is
    made and no pause taken, and the run ends, without the summary, on
    one line: that the file could not be found for FileNotFoundError,
    the text of the exception after the words Error reading CSV file
    for any other. *)
Theorem X20_unreadable_file w csv_file api_url delay e :
  Poster.file_text w csv_file = Poster.Raised e ->
  let st := snd (Poster.run w csv_file api_url delay) in
  requests (Poster.out st) = []
  /\ sleeps (Poster.out st) = 0%nat
  /\ last (lines_printed (Poster.out st)) []
     = match e with
       | Poster.FileNotFoundError _ =>
           Poster.cross_mark ++ py " Error: Could not find file '"
           ++ csv_file ++ py "'"
       | _ =>
           Poster.cross_mark ++ py " Error reading CSV file: "
           ++ Poster.exn_str e
       end.
Proof.
  intros Hfile.
  assert (Hrun : exists l line,
    Poster.run w csv_file api_url delay
    = (Poster.Done tt, Poster.mkState 0 0 (l ++ [Poster.Printed line]))
    /\ requests l = [] /\ sleeps l = 0%nat
    /\ line = match e with
              | Poster.FileNotFoundError _ =>
                  Poster.cross_mark ++ py " Error: Could not find file '"
                  ++ csv_file ++ py "'"
              | _ =>
                  Poster.cross_mark ++ py " Error reading CSV file: "
                  ++ Poster.exn_str e
              end).
  { unfold Poster.run, Poster.post_all_feeds.
    rewrite !bind_print.
    cbn [Poster.out Poster.successful_posts Poster.failed_posts app].
    unfold Poster.bind at 1, Poster.catch at 1. unfold Poster.bind at 1.
    unfold Poster.read_rows. rewrite Hfile. unfold Poster.raise.
    destruct e as [msg|msg|msg]; rewrite bind_print; unfold Poster.ret;
      cbn [Poster.out Poster.successful_posts Poster.failed_posts];
      (eexists; eexists; split; [reflexivity|]); repeat split. }
  destruct Hrun as (l & line & -> & Hreq & Hsl & Hline).
  cbn [snd Poster.out].
  rewrite requests_app, sleeps_app, lines_printed_app, Hreq, Hsl.
  change (lines_printed [Poster.Printed line]) with [line].
  rewrite last_snoc, Hline. repeat split.
Qed.

Lemma X20_unreadable_file_witness :
  let st := snd (Poster.run
     (friendly (py "rss_feeds.csv") short_row_text)
     (py "feeds.csv") (py "https://api.example/rss") half_second) in
  requests (Poster.out st) = []
  /\ sleeps (Poster.out st) = 0%nat
  /\ last (lines_printed (Poster.out st)) []
     = Poster.cross_mark ++ py " Error: Could not find file '"
       ++ py "feeds.csv" ++ py "'".
Proof.
  apply (@X20_unreadable_file
           (friendly (py "rss_feeds.csv") short_row_text)
           (py "feeds.csv") (py "https://api.example/rss") half_second
           (Poster.FileNotFoundError (py "No such file or directory"))).
  reflexivity.
Defined.

(** ** From the OPML files to the requests *)

Lemma due_rows_of_feeds chk api_url all_feeds :
  due chk api_url (map (fun f => row_of (translated f)) all_feeds)
  = flat_map (fun f => match feed_request chk api_url f with
                       | Some r => [r]
                       | None => []
                       end) all_feeds.
Proof.
  unfold due. induction all_feeds as [|f fs IH]; cbn [map flat_map];
    [reflexivity|].
  rewrite IH. reflexivity.
Qed.

(** X21.  The two programs together: when the conversion has written
    its file and the poster reads that file, in a world that answers,
    the requests made are those of the records of all the OPML files,
    in the order of the conversion: one for each record whose title,
    URL and category are not empty once their newlines are translated
    and the white space around them is stripped.  No value may be
    longer than the reader's limit. *)
Theorem X21_conversion_then_posting
  d input_dir output_file w api_url delay path text :
  written (convert_opml_to_csv d input_dir output_file) = Some (path, text) ->
  Poster.file_text w path = Poster.Done text ->
  Forall within_limit (all_feeds_of d input_dir) ->
  answers w -> Poster.sleep_error delay = None ->
  requests (Poster.out (snd (Poster.run w path api_url delay)))
  = flat_map (fun f => match feed_request (Poster.checks w) api_url f with
                       | Some r => [r]
                       | None => []
                       end) (all_feeds_of d input_dir).
Proof.
  intros Hwritten Hfile Hlimit Hw Hdelay.
  destruct (convert_outcome d input_dir output_file) as [Hout _].
  rewrite Hwritten in Hout.
  destruct (all_feeds_of d input_dir) as [|f fs] eqn:Hall; [discriminate|].
  destruct (open_w d output_file); [|discriminate].
  injection Hout as -> ->.
  pose proof (dict_rows_text_of Hlimit) as Hrows.
  assert (Hgood : Forall (fun row => row_error row = None)
                         (map (fun f => row_of (translated f)) (f :: fs))).
  { apply Forall_forall. intros row Hrow.
    apply in_map_iff in Hrow as (f' & <- & _). reflexivity. }
  destruct (@poster_run_complete w output_file api_url delay _ _
              Hfile Hrows Hgood Hw Hdelay) as (st & -> & Hreq & _).
  cbn [snd]. rewrite Hreq. apply due_rows_of_feeds.
Qed.

Lemma X21_conversion_then_posting_witness :
  requests (Poster.out (snd (Poster.run
     (friendly (py "rss_feeds.csv") (Csv.text_of [tech_feed]))
     (py "rss_feeds.csv") (py "https://api.example/rss") half_second)))
  = [Poster.mkRequest (py "https://api.example/rss") (py "Tech")
       (py "http://a.com/rss") (py "a.com") (py "news")].
Proof.
  apply (@X21_conversion_then_posting
           (one_opml (py "feeds/news.opml") tech_content)
           (py "feeds") (py "rss_feeds.csv")
           (friendly (py "rss_feeds.csv") (Csv.text_of [tech_feed]))
           (py "https://api.example/rss") half_second
           (py "rss_feeds.csv") (Csv.text_of [tech_feed])).
  - vm_compute. reflexivity.
  - reflexivity.
  - vm_compute. repeat constructor; discriminate.
  - intros n r. exact I.
  - reflexivity.
Defined.
